(** * tinysse: the server-side broadcast hub ([hub.go]) and its configuration

    A shallow embedding of [SSEHub] (registry of client connections, bounded
    message history, channel-filtered fan-out) together with the two
    [strconv] routines the hub calls, and the statements the specification
    makes about them.

    Conventions.
    - Go's [uint64] is a [Z] in [0, 2^64) with the wrap-around of [++]
      written out; Go's [int] is a [Z].
    - Go strings are [string] (a sequence of 8-bit characters).
    - A slice is a [list]; the [nil] slice is the empty list.
    - [map[string]*clientConnection] is a [gmap string clientConnection].
      The fields of a [clientConnection] are never written after creation;
      the only shared mutable object behind the pointer is the channel
      [Send], which lives in a store of channels indexed by reference.
    - [sync.RWMutex] makes every critical section atomic; the model runs
      calls one after the other. *)

From Stdlib Require Import ZArith Lia Ascii String List.
From stdpp Require Import base tactics option list gmap strings fin_maps sorting.

Local Open Scope Z_scope.

(** ** strconv *)

Module strconv.

(** The two error values [ParseUint] wraps in a [*NumError]. *)
Inductive NumError := ErrSyntax | ErrRange.

Inductive result :=
| Ok (n : Z)
| Err (e : NumError).

Definition maxUint64 : Z := 2 ^ 64 - 1.

Definition digit_char (d : Z) : ascii :=
  ascii_of_nat (48 + Z.to_nat d).

(** [formatBits], base 10: digits are produced from the least significant
    one while [u >= 10], then the leading digit.  A [uint64] has at most
    20 decimal digits, which bounds the loop. *)
Fixpoint formatBits (fuel : nat) (u : Z) (a : string) : string :=
  match fuel with
  | O => a
  | S fuel' =>
      if 10 <=? u
      then formatBits fuel' (u / 10) (String (digit_char (u mod 10)) a)
      else String (digit_char u) a
  end.

Definition FormatUint (i : Z) (base : Z) : string :=
  formatBits 20 i EmptyString.

(** The digit value of a byte in [ParseUint]: ['0'..'9'] give [0..9],
    letters give [10..35]; anything else is a syntax error. *)
Definition digit_val (c : ascii) : option Z :=
  let n := Z.of_nat (nat_of_ascii c) in
  if (48 <=? n) && (n <=? 57) then Some (n - 48)
  else if (97 <=? n) && (n <=? 122) then Some (n - 97 + 10)
  else if (65 <=? n) && (n <=? 90) then Some (n - 65 + 10)
  else None.

(** The loop of [ParseUint] over the bytes of [s], with [cutoff] the
    smallest number such that [cutoff * base] overflows. *)
Fixpoint parse_loop (base cutoff maxVal : Z) (n : Z) (s : string) : result :=
  match s with
  | EmptyString => Ok n
  | String c s' =>
      match digit_val c with
      | None => Err ErrSyntax
      | Some d =>
          if base <=? d then Err ErrSyntax
          else if cutoff <=? n then Err ErrRange
          else
            let n := (n * base) mod 2 ^ 64 in
            let n1 := (n + d) mod 2 ^ 64 in
            if (n1 <? n) || (maxVal <? n1) then Err ErrRange
            else parse_loop base cutoff maxVal n1 s'
      end
  end.

(** [ParseUint(s, base, bitSize)] for an explicit base in [2..36]; the hub
    only calls it with base 10 and bit size 64. *)
Definition ParseUint (s : string) (base : Z) (bitSize : Z) : result :=
  match s with
  | EmptyString => Err ErrSyntax
  | _ =>
      let cutoff := maxUint64 / base + 1 in
      let maxVal := 2 ^ bitSize - 1 in
      parse_loop base cutoff maxVal 0 s
  end.

End strconv.

Import strconv.

(** ** Data model *)

(** Modelled from the spec: the declaration of [SSEMessage] (models.go) is
    not among the sources; its fields are the ones the composite literal in
    [Broadcast] sets: [ID string], [Data []byte], [Targets []string],
    [HandlerID uint8]. *)
Record SSEMessage := mkSSEMessage {
  ID : string;
  Data : list Byte.byte;
  Targets : list string;
  HandlerID : Z;
}.

(** [Config]: the fields that are data.  The callbacks ([OnConnect],
    [OnMessage], [TokenValidator], ...) are functions the hub never calls. *)
Record Config := mkConfig {
  ClientChannelBuffer : Z;
  HistoryReplayBuffer : Z;
  Endpoint : string;
  RetryInterval : Z;
  MaxRetryDelay : Z;
  MaxReconnectAttempts : Z;
  AllowedOrigins : list string;
}.

(** A Go channel [chan SSEMessage]: the buffered elements (oldest first),
    the capacity given to [make], and whether [close] was called. *)
Record chan := mkChan {
  chan_buf : list SSEMessage;
  chan_cap : nat;
  chan_closed : bool;
}.

(** Channel values are references. *)
Abbreviation chan_ref := nat (only parsing).

(** [clientConnection].  The field [ID] is [connID] here, since the name
    [ID] is taken by [SSEMessage]. *)
Record clientConnection := mkClientConnection {
  connID : string;
  UserID : string;
  Role : string;
  Channels : list string;
  Send : chan_ref;
}.

(** [SSEHub], without the mutex; [config] is the record behind the
    (non-nil) [*Config]. *)
Record SSEHub := mkSSEHub {
  clients : gmap string clientConnection;
  messageBuffer : list SSEMessage;
  config : Config;
  lastID : Z;
}.

(** The hub together with the channels its clients' [Send] fields refer
    to.  A reference with no entry in [chans] is the [nil] channel. *)
Record World := mkWorld {
  hub : SSEHub;
  chans : gmap nat chan;
}.

Definition set_clients (f : gmap string clientConnection -> gmap string clientConnection)
    (h : SSEHub) : SSEHub :=
  mkSSEHub (f (clients h)) (messageBuffer h) (config h) (lastID h).

Definition set_messageBuffer (f : list SSEMessage -> list SSEMessage)
    (h : SSEHub) : SSEHub :=
  mkSSEHub (clients h) (f (messageBuffer h)) (config h) (lastID h).

Definition set_lastID (f : Z -> Z) (h : SSEHub) : SSEHub :=
  mkSSEHub (clients h) (messageBuffer h) (config h) (f (lastID h)).

(** ** Calls: state, blocking and panics *)

(** What becomes of a call: it returns a value, its goroutine is parked on
    a channel operation, or the runtime panics.  Each case carries the
    world as the call left it. *)
Inductive outcome (A : Type) : Type :=
| Returned (a : A) (w : World)
| Blocked (w : World)
| Panicked (w : World).
Arguments Returned {A} a w.
Arguments Blocked {A} w.
Arguments Panicked {A} w.

Definition M (A : Type) : Type := World -> outcome A.

Global Instance M_ret : MRet M := fun A (a : A) w => Returned a w.

Global Instance M_bind : MBind M := fun A B (k : A -> M B) (m : M A) w =>
  match m w with
  | Returned a w' => k a w'
  | Blocked w' => Blocked w'
  | Panicked w' => Panicked w'
  end.

Definition world_of {A} (o : outcome A) : World :=
  match o with
  | Returned _ w => w
  | Blocked w => w
  | Panicked w => w
  end.

Definition getHub : M SSEHub := fun w => Returned (hub w) w.

Definition modifyHub (f : SSEHub -> SSEHub) : M unit :=
  fun w => Returned tt (mkWorld (f (hub w)) (chans w)).

(** [ch <- m].  A send on the nil channel blocks forever; a send on a
    closed channel panics; a send on a channel whose buffer is full parks
    the sender (the model has no concurrent receiver); otherwise the
    element is appended to the buffer. *)
Definition chan_send (ch : chan_ref) (m : SSEMessage) : M unit :=
  fun w =>
    match chans w !! ch with
    | None => Blocked w
    | Some c =>
        if chan_closed c then Panicked w
        else if (length (chan_buf c) <? chan_cap c)%nat
        then Returned tt
               (mkWorld (hub w)
                  (<[ch := mkChan (chan_buf c ++ [m]) (chan_cap c) false]> (chans w)))
        else Blocked w
    end.

(** [close(ch)].  Closing the nil channel or a closed channel panics. *)
Definition chan_close (ch : chan_ref) : M unit :=
  fun w =>
    match chans w !! ch with
    | None => Panicked w
    | Some c =>
        if chan_closed c then Panicked w
        else Returned tt
               (mkWorld (hub w)
                  (<[ch := mkChan (chan_buf c) (chan_cap c) true]> (chans w)))
    end.

(** [for _, x := range l { body }] *)
Fixpoint for_range {A} (l : list A) (body : A -> M unit) : M unit :=
  match l with
  | [] => mret tt
  | x :: l' => body x ;; for_range l' body
  end.

(** ** The hub *)

Definition NewHub (c : Config) : SSEHub :=
  mkSSEHub ∅ [] c 0.

(** The critical section of [Broadcast] (hub.go 29-43): bump the counter,
    build the record, append it, trim the buffer.  Returns the record. *)
Definition stamp (data : list Byte.byte) (broadcast : list string)
    (handlerID : Z) (h : SSEHub) : SSEHub * SSEMessage :=
  let h := set_lastID (fun n => (n + 1) mod 2 ^ 64) h in
  let msg := mkSSEMessage (FormatUint (lastID h) 10) data broadcast handlerID in
  let h := set_messageBuffer (fun b => b ++ [msg]) h in
  let len := Z.of_nat (length (messageBuffer h)) in
  let N := HistoryReplayBuffer (config h) in
  let h :=
    if (0 <? N) && (N <? len)
    then set_messageBuffer (drop (Z.to_nat (len - N))) h
    else h in
  (h, msg).

(** The innermost loop (hub.go 50-55): send on the first channel equal to
    [target], then [break]. *)
Fixpoint range_Channels (target : string) (channels : list string)
    (client : clientConnection) (msg : SSEMessage) : M unit :=
  match channels with
  | [] => mret tt
  | channel :: channels' =>
      if decide (target = channel)
      then chan_send (Send client) msg
      else range_Channels target channels' client msg
  end.

(** The loops of hub.go 48-57 for the clients in the order [order]. *)
Definition fanout (order : list clientConnection) (broadcast : list string)
    (msg : SSEMessage) : M unit :=
  for_range order (fun client =>
    for_range broadcast (fun target =>
      range_Channels target (Channels client) client msg)).

(** [Broadcast].  Go ranges over a map in an unspecified order: [order]
    is the order in which this call visits the registered clients. *)
Definition Broadcast (data : list Byte.byte) (broadcast : list string)
    (handlerID : Z) (order : list clientConnection) : M unit :=
  h ← getHub;
  let '(h', msg) := stamp data broadcast handlerID h in
  modifyHub (fun _ => h');;
  fanout order broadcast msg.

(** An iteration order of [range h.clients]: the registered connections,
    each one once. *)
Definition range_clients (h : SSEHub) (order : list clientConnection) : Prop :=
  order ≡ₚ (map_to_list (clients h)).*2.

Definition register (client : clientConnection) : M unit :=
  modifyHub (set_clients (insert (connID client) client)).

Definition unregister (client : clientConnection) : M unit :=
  h ← getHub;
  match clients h !! connID client with
  | Some _ =>
      modifyHub (set_clients (delete (connID client)));;
      chan_close (Send client)
  | None => mret tt
  end.

(** The loop of [GetMessagesSince] (hub.go 89-97), [messages] being the
    slice appended to. *)
Fixpoint since_loop (lastID : Z) (buffer messages : list SSEMessage)
    : list SSEMessage :=
  match buffer with
  | [] => messages
  | msg :: buffer' =>
      match ParseUint (ID msg) 10 64 with
      | Err _ => since_loop lastID buffer' messages
      | Ok msgID =>
          if lastID <? msgID
          then since_loop lastID buffer' (messages ++ [msg])
          else since_loop lastID buffer' messages
      end
  end.

Definition GetMessagesSince (lastEventID : string) : M (list SSEMessage) :=
  h ← getHub;
  if decide (lastEventID = EmptyString) then mret []
  else
    match ParseUint lastEventID 10 64 with
    | Err _ => mret []
    | Ok lastID => mret (since_loop lastID (messageBuffer h) [])
    end.

(** ** Runs of the hub *)

(** The worlds a hub built by [NewHub c] can be in, with the records its
    [Broadcast] calls have stamped so far, oldest first.  A call counts
    with whatever became of it (a parked or panicking [Broadcast] has
    already left its critical section); between calls the rest of the
    program may do anything to the channels (create them, receive from
    them). *)
Inductive reach (c : Config) : list SSEMessage -> World -> Prop :=
| reach_NewHub σ :
    reach c [] (mkWorld (NewHub c) σ)
| reach_Broadcast tr w data broadcast handlerID order :
    reach c tr w ->
    reach c (tr ++ [(stamp data broadcast handlerID (hub w)).2])
      (world_of (Broadcast data broadcast handlerID order w))
| reach_register tr w client :
    reach c tr w -> reach c tr (world_of (register client w))
| reach_unregister tr w client :
    reach c tr w -> reach c tr (world_of (unregister client w))
| reach_GetMessagesSince tr w lastEventID :
    reach c tr w -> reach c tr (world_of (GetMessagesSince lastEventID w))
| reach_channels tr w σ :
    reach c tr w -> reach c tr (mkWorld (hub w) σ).

(** What the history buffer retains of the published records [tr]. *)
Definition retained (N : Z) (tr : list SSEMessage) : list SSEMessage :=
  if 0 <? N then drop (Z.to_nat (Z.of_nat (length tr) - N)) tr else tr.

(** The numeric id of a buffered record, as [GetMessagesSince] reads it. *)
Definition msg_id (m : SSEMessage) : option Z :=
  match ParseUint (ID m) 10 64 with
  | Ok n => Some n
  | Err _ => None
  end.

(** A computation that leaves the hub alone, however it ends. *)
Definition hub_stable {A} (m : M A) : Prop :=
  forall w, hub (world_of (m w)) = hub w.

(** A property of the world that a computation keeps, however it ends. *)
Definition preserves {A} (P : World -> Prop) (m : M A) : Prop :=
  forall w, P w -> P (world_of (m w)).

(** The invariant of a run: the configuration is the one given to
    [NewHub], the counter is the number of publishes (modulo 2^64), the
    k-th published record carries the decimal form of k (modulo 2^64),
    and the buffer is what the trim retains of the published records. *)
Definition hub_inv (c : Config) (tr : list SSEMessage) (h : SSEHub) : Prop :=
  config h = c
  /\ lastID h = Z.of_nat (length tr) mod 2 ^ 64
  /\ ID <$> tr
     = (fun k => FormatUint (k mod 2 ^ 64) 10) <$> seqZ 1 (Z.of_nat (length tr))
  /\ messageBuffer h = retained (HistoryReplayBuffer c) tr.

(** A buffered record is newer than the watermark [wm]: its id parses and
    is strictly greater. *)
Definition newer_than (wm : Z) (m : SSEMessage) : Prop :=
  match msg_id m with
  | Some k => wm < k
  | None => False
  end.

Global Instance newer_than_dec wm m : Decision (newer_than wm m).
Proof. unfold newer_than. destruct (msg_id m); apply _. Defined.

(** The order of two records by their numeric ids. *)
Definition id_lt (a b : SSEMessage) : Prop :=
  match msg_id a, msg_id b with
  | Some x, Some y => x < y
  | _, _ => False
  end.

(** The queue behind [ch] is the open channel [c], whose buffer is full. *)
Definition full_queue (ch : nat) (c : chan) (w : World) : Prop :=
  chans w !! ch = Some c
  /\ chan_closed c = false
  /\ (chan_cap c <= length (chan_buf c))%nat.

(** No channel of the store has been closed. *)
Definition all_open (w : World) : Prop :=
  forall l c, chans w !! l = Some c -> chan_closed c = false.

(** How many sends the loops of [Broadcast] make to one client: one for
    each element of [broadcast] found among the client's channels. *)
Definition sends_to (client : clientConnection) (broadcast : list string) : nat :=
  length (filter (fun target => target ∈ Channels client) broadcast).

(** A string is the decimal notation of [n], an unsigned 64-bit integer:
    it is not empty, all its characters are decimal digits, and their
    value is [n < 2^64]. *)
Definition dec_digit (c : ascii) : option Z :=
  let n := Z.of_nat (nat_of_ascii c) in
  if (48 <=? n) && (n <=? 57) then Some (n - 48) else None.

Fixpoint dec_value (acc : Z) (s : string) : option Z :=
  match s with
  | EmptyString => Some acc
  | String c s' =>
      match dec_digit c with
      | Some d => dec_value (acc * 10 + d) s'
      | None => None
      end
  end.

Definition decimal_uint64 (s : string) (n : Z) : Prop :=
  s <> EmptyString /\ dec_value 0 s = Some n /\ n < 2 ^ 64.

(** ** The client's reconnection engine *)

Module Reconnection.




(** Modelled from the spec: what the engine does in a transition
    (client.go is not among the sources): wait for a delay before
    reconnecting, deliver a record to the consumer callback, surface the
    terminal error. *)
Inductive Effect :=
| Wait (delay : Z)
| Deliver (id : Z)
| TerminalError.








(** The delays waited, in order. *)
Fixpoint waits (out : list Effect) : list Z :=
  match out with
  | [] => []
  | Wait d :: out' => d :: waits out'
  | _ :: out' => waits out'
  end.

End Reconnection.

(** ** The server *)

(** [TinySSE] (the server-side struct of the package) with [New] and the
    [Broadcast] method that forwards to the hub.  The hub behind the
    pointer [s.hub] is the hub of the world the call runs in. *)
Module Server.

Record TinySSE := mkTinySSE {
  config : Config;
  hub : SSEHub;
}.

Definition New (c : Config) : TinySSE :=
  mkTinySSE c (NewHub c).

Definition Broadcast (s : TinySSE) (data : list Byte.byte)
    (broadcast : list string) (handlerID : Z)
    (order : list clientConnection) (σ : gmap nat chan) : outcome unit :=
  Broadcast data broadcast handlerID order (mkWorld (hub s) σ).

End Server.

(** The queue behind [ch] is the channel [c], which has been closed. *)
Definition closed_queue (ch : nat) (c : chan) (w : World) : Prop :=
  chans w !! ch = Some c /\ chan_closed c = true.

(** No two registered connections share a channel. *)
Definition distinct_queues (h : SSEHub) : Prop :=
  forall k1 k2 c1 c2,
    clients h !! k1 = Some c1 -> clients h !! k2 = Some c2 ->
    Send c1 = Send c2 -> k1 = k2.

(** Every client of [order] has an open queue in [w] with room for all
    the sends the fan-out of [broadcast] makes to it. *)
Definition queues_have_room (order : list clientConnection)
    (broadcast : list string) (w : World) : Prop :=
  forall client, client ∈ order ->
    exists c, chans w !! Send client = Some c
      /\ chan_closed c = false
      /\ (length (chan_buf c) + sends_to client broadcast <= chan_cap c)%nat.

(** ** Scenarios *)

(** The scenarios of section 8 of the specification, as worlds. *)
Module Scenario.

(** Per-client queue capacity 1, history capacity 3. *)
Definition cfg : Config := mkConfig 1 3 "/events" 1000 30000 0 [].

(** [&Config{}]: every field unset. *)
Definition cfg_unset : Config := mkConfig 0 0 "" 0 0 0 [].

(** A connection that follows channel ["x"]; its queue is channel [0]. *)
Definition subscriber : clientConnection :=
  mkClientConnection "conn-1" "user" "role" ["x"] 0%nat.

(** A connection that follows ["A"] and ["B"]. *)
Definition subscriber_AB : clientConnection :=
  mkClientConnection "conn-2" "user" "role" ["A"; "B"] 0%nat.

(** [make(chan SSEMessage, cap)] as the only channel of the store. *)
Definition queue (cap : nat) : gmap nat chan :=
  {[ 0%nat := mkChan [] cap false ]}.

(** A hub with [subscriber] registered, queue capacity 1. *)
Definition registered : World :=
  world_of (register subscriber (mkWorld (NewHub cfg) (queue 1))).

(** ... after one publish to ["x"]. *)
Definition first_published : World :=
  world_of (Broadcast [] ["x"] 0 [subscriber] registered).

(** A hub with [subscriber_AB] registered, queue capacity 2. *)
Definition registered_AB : World :=
  world_of (register subscriber_AB (mkWorld (NewHub cfg) (queue 2))).

(** [n] publishes to ["x"] on a fresh hub with no client, and the records
    they stamp. *)
Fixpoint published (c : Config) (n : nat) : list SSEMessage * World :=
  match n with
  | O => ([], mkWorld (NewHub c) ∅)
  | S n' =>
      let '(tr, w) := published c n' in
      (tr ++ [(stamp [] ["x"] 0 (hub w)).2],
       world_of (Broadcast [] ["x"] 0 [] w))
  end.

(** The record of the [k]-th publish. *)
Definition record (k : Z) : SSEMessage :=
  mkSSEMessage (FormatUint k 10) [] ["x"] 0.

End Scenario.

(** ** Further examples *)

Module Example.

(** Two channels, both of capacity 1. *)
Definition two_chans : gmap nat chan :=
  <[ 1%nat := mkChan [] 1 false ]> (Scenario.queue 1).

(** [Scenario.subscriber] registered, with a second channel around. *)
Definition two_queues : World :=
  world_of (register Scenario.subscriber
              (mkWorld (NewHub Scenario.cfg) two_chans)).

(** An older connection object with the id of [Scenario.subscriber] and a
    queue of its own. *)
Definition stale : clientConnection :=
  mkClientConnection "conn-1" "user" "role" ["x"] 1%nat.

(** A second connection, following ["x"] and ["y"], with queue [1]. *)
Definition second : clientConnection :=
  mkClientConnection "conn-3" "user" "role" ["x"; "y"] 1%nat.

(** Both [Scenario.subscriber] and [second] registered. *)
Definition two_registered : World :=
  world_of (register second two_queues).

(** A world where the queue of the registered subscriber was closed
    behind the hub's back. *)
Definition closed_behind : World :=
  mkWorld (hub Scenario.registered) {[ 0%nat := mkChan [] 1 true ]}.


End Example.

(** * Properties *)

(** ** strconv *)

Section strconv_facts.

Lemma digit_val_digit_char d :
  0 <= d < 10 -> digit_val (digit_char d) = Some d.
Proof.
  intros Hd.
  assert (d = 0 \/ d = 1 \/ d = 2 \/ d = 3 \/ d = 4 \/ d = 5 \/ d = 6
          \/ d = 7 \/ d = 8 \/ d = 9) as Hcases by lia.
  repeat (destruct Hcases as [-> | Hcases]; [reflexivity|]).
  subst d. reflexivity.
Qed.

Lemma parse_loop_digit n d s :
  0 <= d < 10 -> 0 <= n -> n * 10 + d < 2 ^ 64 ->
  parse_loop 10 (maxUint64 / 10 + 1) (2 ^ 64 - 1) n (String (digit_char d) s)
  = parse_loop 10 (maxUint64 / 10 + 1) (2 ^ 64 - 1) (n * 10 + d) s.
Proof.
  intros Hd Hn Hlt. cbn [parse_loop].
  rewrite digit_val_digit_char by done.
  assert (maxUint64 / 10 + 1 = 1844674407370955162) as -> by reflexivity.
  assert (2 ^ 64 = 18446744073709551616) as E64 by reflexivity.
  rewrite E64 in *.
  destruct (10 <=? d) eqn:E1; [apply Z.leb_le in E1; lia|].
  destruct (1844674407370955162 <=? n) eqn:E2; [apply Z.leb_le in E2; lia|].
  cbv zeta.
  rewrite (Z.mod_small (n * 10)) by lia.
  rewrite (Z.mod_small (n * 10 + d)) by lia.
  destruct (n * 10 + d <? n * 10) eqn:E3; [apply Z.ltb_lt in E3; lia|].
  destruct (18446744073709551616 - 1 <? n * 10 + d) eqn:E4;
    [apply Z.ltb_lt in E4; lia|].
  reflexivity.
Qed.

Lemma formatBits_nonempty fuel u a :
  (0 < fuel)%nat -> formatBits fuel u a <> EmptyString.
Proof.
  revert u a. induction fuel as [|fuel IH]; intros u a Hf; [lia|].
  cbn [formatBits]. destruct (10 <=? u); [|discriminate].
  destruct fuel as [|fuel']; [discriminate|]. apply IH. lia.
Qed.

Lemma parse_loop_formatBits fuel u a :
  0 <= u < 10 ^ Z.of_nat fuel -> u < 2 ^ 64 ->
  parse_loop 10 (maxUint64 / 10 + 1) (2 ^ 64 - 1) 0 (formatBits fuel u a)
  = parse_loop 10 (maxUint64 / 10 + 1) (2 ^ 64 - 1) u a.
Proof.
  revert u a. induction fuel as [|fuel IH]; intros u a Hu H64.
  - change (10 ^ Z.of_nat 0) with 1 in Hu.
    assert (u = 0) as -> by lia. reflexivity.
  - cbn [formatBits]. destruct (10 <=? u) eqn:E.
    + apply Z.leb_le in E.
      assert (10 ^ Z.of_nat (S fuel) = 10 * 10 ^ Z.of_nat fuel) as Hpow.
      { rewrite Nat2Z.inj_succ, Z.pow_succ_r by lia. reflexivity. }
      pose proof (Z.div_mod u 10 ltac:(lia)) as Hdm.
      pose proof (Z.mod_pos_bound u 10 ltac:(lia)) as Hmod.
      rewrite IH by lia.
      rewrite parse_loop_digit by lia.
      f_equal. lia.
    + apply Z.leb_gt in E.
      rewrite parse_loop_digit by lia. reflexivity.
Qed.

(** [ParseUint] reads back what [FormatUint] prints, for every [uint64]. *)
Lemma ParseUint_FormatUint n :
  0 <= n < 2 ^ 64 -> ParseUint (FormatUint n 10) 10 64 = Ok n.
Proof.
  intros Hn. unfold ParseUint, FormatUint.
  pose proof (formatBits_nonempty 20 n EmptyString ltac:(lia)) as Hne.
  destruct (formatBits 20 n EmptyString) eqn:E; [done|].
  rewrite <- E.
  rewrite parse_loop_formatBits; [reflexivity| |lia].
  assert (2 ^ 64 < 10 ^ Z.of_nat 20) by reflexivity. lia.
Qed.

Lemma FormatUint_inj n m :
  0 <= n < 2 ^ 64 -> 0 <= m < 2 ^ 64 ->
  FormatUint n 10 = FormatUint m 10 -> n = m.
Proof.
  intros Hn Hm E.
  pose proof (ParseUint_FormatUint n Hn) as H1.
  pose proof (ParseUint_FormatUint m Hm) as H2.
  rewrite E in H1. congruence.
Qed.

End strconv_facts.

(** ** The hub's fields along a run *)

Section hub_facts.

Lemma hub_stable_ret {A} (a : A) : hub_stable (mret a).
Proof. intros w. reflexivity. Qed.

Lemma hub_stable_bind {A B} (m : M A) (k : A -> M B) :
  hub_stable m -> (forall a, hub_stable (k a)) -> hub_stable (m ≫= k).
Proof.
  intros Hm Hk w. unfold mbind, M_bind.
  specialize (Hm w). destruct (m w) as [a w'| |]; simpl in *; try done.
  rewrite Hk. done.
Qed.

Lemma hub_stable_chan_send ch m : hub_stable (chan_send ch m).
Proof.
  intros w. unfold chan_send.
  destruct (chans w !! ch) as [c|]; [|done].
  destruct (chan_closed c); [done|].
  destruct (length (chan_buf c) <? chan_cap c)%nat; done.
Qed.

Lemma hub_stable_chan_close ch : hub_stable (chan_close ch).
Proof.
  intros w. unfold chan_close.
  destruct (chans w !! ch) as [c|]; [|done].
  destruct (chan_closed c); done.
Qed.

Lemma hub_stable_for_range {A} (l : list A) (body : A -> M unit) :
  (forall x, hub_stable (body x)) -> hub_stable (for_range l body).
Proof.
  intros Hbody. induction l as [|x l IH]; simpl.
  - apply hub_stable_ret.
  - apply hub_stable_bind; [apply Hbody|]. intros _. apply IH.
Qed.

Lemma hub_stable_range_Channels target channels client msg :
  hub_stable (range_Channels target channels client msg).
Proof.
  induction channels as [|channel channels IH]; simpl.
  - apply hub_stable_ret.
  - case_decide; [apply hub_stable_chan_send|apply IH].
Qed.

Lemma hub_stable_fanout order broadcast msg :
  hub_stable (fanout order broadcast msg).
Proof.
  apply hub_stable_for_range. intros client.
  apply hub_stable_for_range. intros target.
  apply hub_stable_range_Channels.
Qed.

Lemma hub_stable_GetMessagesSince lastEventID :
  hub_stable (GetMessagesSince lastEventID).
Proof.
  intros w. unfold GetMessagesSince, mbind, M_bind, getHub.
  case_decide; [done|].
  destruct (ParseUint lastEventID 10 64); done.
Qed.

(** Whatever becomes of the fan-out, [Broadcast] leaves the hub as the
    critical section made it. *)
Lemma Broadcast_hub data broadcast handlerID order w :
  hub (world_of (Broadcast data broadcast handlerID order w))
  = (stamp data broadcast handlerID (hub w)).1.
Proof.
  unfold Broadcast, mbind, M_bind, getHub, modifyHub.
  destruct (stamp data broadcast handlerID (hub w)) as [h' msg] eqn:E.
  simpl. apply (hub_stable_fanout order broadcast msg (mkWorld h' (chans w))).
Qed.

Lemma register_hub client w :
  hub (world_of (register client w))
  = set_clients (insert (connID client) client) (hub w).
Proof. reflexivity. Qed.

Lemma unregister_hub client w :
  hub (world_of (unregister client w))
  = match clients (hub w) !! connID client with
    | Some _ => set_clients (delete (connID client)) (hub w)
    | None => hub w
    end.
Proof.
  unfold unregister, mbind, M_bind, getHub, modifyHub.
  destruct (clients (hub w) !! connID client); [|done].
  apply (hub_stable_chan_close (Send client)
           (mkWorld (set_clients (delete (connID client)) (hub w)) (chans w))).
Qed.

Lemma stamp_config data broadcast handlerID h :
  config (stamp data broadcast handlerID h).1 = config h.
Proof.
  unfold stamp. cbv zeta. simpl.
  match goal with |- context [if ?b then _ else _] => destruct b end; done.
Qed.

Lemma stamp_lastID data broadcast handlerID h :
  lastID (stamp data broadcast handlerID h).1 = (lastID h + 1) mod 2 ^ 64.
Proof.
  unfold stamp. cbv zeta. simpl.
  match goal with |- context [if ?b then _ else _] => destruct b end; done.
Qed.

Lemma stamp_msg data broadcast handlerID h :
  (stamp data broadcast handlerID h).2
  = mkSSEMessage (FormatUint ((lastID h + 1) mod 2 ^ 64) 10)
      data broadcast handlerID.
Proof. reflexivity. Qed.

Lemma retained_snoc N tr msg :
  (let b := retained N tr ++ [msg] in
   if (0 <? N) && (N <? Z.of_nat (length b))
   then drop (Z.to_nat (Z.of_nat (length b) - N)) b
   else b)
  = retained N (tr ++ [msg]).
Proof.
  cbv zeta. unfold retained.
  destruct (0 <? N) eqn:EN; simpl; [|done].
  apply Z.ltb_lt in EN.
  rewrite !length_app, length_drop. simpl.
  destruct (N <? _) eqn:E.
  - apply Z.ltb_lt in E.
    rewrite drop_app_le by (rewrite length_drop; lia).
    rewrite drop_drop.
    rewrite (drop_app_le tr) by lia.
    do 2 f_equal. lia.
  - apply Z.ltb_ge in E.
    replace (Z.to_nat (Z.of_nat (length tr) - N)) with 0%nat by lia.
    replace (Z.to_nat (Z.of_nat (length tr + 1) - N)) with 0%nat by lia.
    done.
Qed.

Lemma stamp_messageBuffer data broadcast handlerID h tr :
  messageBuffer h = retained (HistoryReplayBuffer (config h)) tr ->
  messageBuffer (stamp data broadcast handlerID h).1
  = retained (HistoryReplayBuffer (config h))
      (tr ++ [(stamp data broadcast handlerID h).2]).
Proof.
  intros Hb. rewrite <- retained_snoc. rewrite <- Hb.
  unfold stamp. cbv zeta. simpl.
  match goal with |- context [if ?b then _ else _] => destruct b end; done.
Qed.

Lemma hub_inv_set_clients c tr h f :
  hub_inv c tr h -> hub_inv c tr (set_clients f h).
Proof. intros H. exact H. Qed.

Lemma hub_inv_stamp c tr h data broadcast handlerID :
  hub_inv c tr h ->
  hub_inv c (tr ++ [(stamp data broadcast handlerID h).2])
    (stamp data broadcast handlerID h).1.
Proof.
  intros (Hc & Hl & Hids & Hb).
  assert ((lastID h + 1) mod 2 ^ 64 = Z.of_nat (length tr + 1) mod 2 ^ 64)
    as Hnext.
  { rewrite Hl, Nat2Z.inj_add. change (Z.of_nat 1) with 1.
    rewrite Zplus_mod_idemp_l. done. }
  split; [|split; [|split]].
  - rewrite stamp_config. done.
  - rewrite stamp_lastID, length_app. done.
  - rewrite fmap_app, length_app, Hids. simpl length.
    replace (Z.of_nat (length tr + 1)) with (Z.of_nat (S (length tr))) by lia.
    rewrite seqZ_S, fmap_app. f_equal. simpl.
    rewrite Hnext.
    replace (1 + Z.of_nat (length tr)) with (Z.of_nat (length tr + 1)) by lia.
    done.

  - subst c. apply stamp_messageBuffer. done.
Qed.

Lemma reach_hub_inv c tr w : reach c tr w -> hub_inv c tr (hub w).
Proof.
  induction 1 as [σ|tr w data broadcast handlerID order _ IH
                  |tr w client _ IH|tr w client _ IH
                  |tr w lastEventID _ IH|tr w σ _ IH].
  - repeat split. simpl. unfold retained.
    destruct (0 <? HistoryReplayBuffer c); [by rewrite drop_nil|done].
  - rewrite Broadcast_hub. apply hub_inv_stamp. done.
  - rewrite register_hub. apply hub_inv_set_clients. done.
  - rewrite unregister_hub.
    destruct (clients (hub w) !! connID client); [|done].
    apply hub_inv_set_clients. done.
  - rewrite hub_stable_GetMessagesSince. done.
  - done.
Qed.

End hub_facts.

(** ** Replay *)

Section replay_facts.

Lemma since_loop_filter wm buffer messages :
  since_loop wm buffer messages
  = messages ++ filter (newer_than wm) buffer.
Proof.
  revert messages.
  induction buffer as [|msg buffer IH]; intros messages; simpl.
  - by rewrite app_nil_r.
  - rewrite filter_cons.
    destruct (ParseUint (ID msg) 10 64) as [k|e] eqn:Hp.
    + destruct (wm <? k) eqn:E.
      * apply Z.ltb_lt in E.
        rewrite decide_True by (unfold newer_than, msg_id; by rewrite Hp).
        rewrite IH, <- app_assoc. done.
      * apply Z.ltb_ge in E.
        rewrite decide_False
          by (unfold newer_than, msg_id; rewrite Hp; lia).
        apply IH.
    + rewrite decide_False
        by (unfold newer_than, msg_id; rewrite Hp; tauto).
      apply IH.
Qed.

Lemma GetMessagesSince_empty w :
  GetMessagesSince EmptyString w = Returned [] w.
Proof. reflexivity. Qed.

Lemma GetMessagesSince_Err lastEventID e w :
  ParseUint lastEventID 10 64 = Err e ->
  GetMessagesSince lastEventID w = Returned [] w.
Proof.
  intros He. unfold GetMessagesSince, mbind, M_bind, getHub.
  case_decide; [done|]. rewrite He. done.
Qed.

Lemma GetMessagesSince_Ok lastEventID wm w :
  ParseUint lastEventID 10 64 = Ok wm ->
  GetMessagesSince lastEventID w
  = Returned (filter (newer_than wm) (messageBuffer (hub w))) w.
Proof.
  intros Hp. unfold GetMessagesSince, mbind, M_bind, getHub.
  case_decide as Hs; [subst; discriminate|].
  rewrite Hp, since_loop_filter. done.
Qed.

Lemma StronglySorted_drop {A} (R : relation A) n (l : list A) :
  StronglySorted R l -> StronglySorted R (drop n l).
Proof.
  intros Hl. rewrite <- (take_drop n l) in Hl.
  by apply StronglySorted_app_1_r in Hl.
Qed.

Lemma seqZ_drop a len j :
  (j <= len)%nat ->
  drop j (seqZ a (Z.of_nat len)) = seqZ (a + Z.of_nat j) (Z.of_nat (len - j)).
Proof.
  intros Hj.
  replace (Z.of_nat len) with (Z.of_nat j + Z.of_nat (len - j)) by lia.
  rewrite seqZ_app by lia.
  rewrite drop_app_length' by (rewrite length_seqZ; lia).
  do 2 f_equal; lia.
Qed.

(** Records whose ids are [a, a+1, ...]: the ones newer than [wm] are a
    suffix. *)
Lemma filter_newer_seq wm (l : list SSEMessage) a :
  msg_id <$> l = Some <$> seqZ a (Z.of_nat (length l)) ->
  filter (newer_than wm) l = drop (Z.to_nat (wm + 1 - a)) l.
Proof.
  revert a. induction l as [|m l IH]; intros a Hids.
  - by rewrite drop_nil.
  - simpl length in Hids. rewrite seqZ_cons in Hids by lia.
    rewrite !fmap_cons in Hids. injection Hids as Hm Hl.
    replace (Z.pred (Z.of_nat (S (length l)))) with (Z.of_nat (length l))
      in Hl by lia.
    specialize (IH _ Hl). rewrite filter_cons, IH.
    case_decide as Hlt; unfold newer_than in Hlt; rewrite Hm in Hlt.
    + replace (Z.to_nat (wm + 1 - a)) with 0%nat by lia.
      replace (Z.to_nat (wm + 1 - Z.succ a)) with 0%nat by lia.
      done.
    + replace (Z.to_nat (wm + 1 - a))
        with (S (Z.to_nat (wm + 1 - Z.succ a))) by lia.
      done.
Qed.

Lemma id_lt_seq (l : list SSEMessage) a :
  msg_id <$> l = Some <$> seqZ a (Z.of_nat (length l)) ->
  StronglySorted id_lt l.
Proof.
  revert a. induction l as [|m l IH]; intros a Hids; [constructor|].
  simpl length in Hids. rewrite seqZ_cons in Hids by lia.
  rewrite !fmap_cons in Hids. injection Hids as Hm Hl.
  replace (Z.pred (Z.of_nat (S (length l)))) with (Z.of_nat (length l))
    in Hl by lia.
  constructor; [by eapply IH|].
  apply Forall_forall. intros m' Hin.
  apply list_elem_of_lookup in Hin as [i Hi].
  assert ((msg_id <$> l) !! i = Some (msg_id m')) as Hi'.
  { rewrite list_lookup_fmap, Hi. done. }
  rewrite Hl, list_lookup_fmap in Hi'.
  destruct (seqZ (Z.succ a) (Z.of_nat (length l)) !! i) as [k|] eqn:Hk;
    [|done].
  apply lookup_seqZ in Hk as [-> _]. simpl in Hi'.
  unfold id_lt. rewrite Hm. injection Hi' as <-. lia.
Qed.

(** In a run of fewer than 2^64 publishes the published records carry
    the ids 1, 2, ..., and the buffer holds a suffix of them. *)
Lemma reach_trace_ids c tr w :
  reach c tr w -> Z.of_nat (length tr) < 2 ^ 64 ->
  ID <$> tr = (fun k => FormatUint k 10) <$> seqZ 1 (Z.of_nat (length tr))
  /\ msg_id <$> tr = Some <$> seqZ 1 (Z.of_nat (length tr)).
Proof.
  intros Hr Hn. destruct (reach_hub_inv _ _ _ Hr) as (_ & _ & Hids & _).
  assert (ID <$> tr
          = (fun k => FormatUint k 10) <$> seqZ 1 (Z.of_nat (length tr)))
    as Hids'.
  { rewrite Hids. apply list_eq. intros i. rewrite !list_lookup_fmap.
    destruct (seqZ 1 (Z.of_nat (length tr)) !! i) as [k|] eqn:Hk; [|done].
    apply lookup_seqZ in Hk as [-> Hi]. simpl.
    rewrite Z.mod_small by lia. done. }
  split; [done|].
  apply list_eq. intros i.
  assert ((ID <$> tr) !! i
          = ((fun k => FormatUint k 10) <$> seqZ 1 (Z.of_nat (length tr))) !! i)
    as Hi by (by rewrite Hids').
  rewrite !list_lookup_fmap in *.
  destruct (tr !! i) as [m|] eqn:Hm;
    destruct (seqZ 1 (Z.of_nat (length tr)) !! i) as [k|] eqn:Hk;
    simpl in *; try done.
  apply lookup_seqZ in Hk as [-> Hlt].
  injection Hi as Hi. unfold msg_id. rewrite Hi.
  rewrite ParseUint_FormatUint by lia. done.
Qed.

Lemma reach_buffer c tr w :
  reach c tr w ->
  exists j, (j <= length tr)%nat
    /\ messageBuffer (hub w) = drop j tr
    /\ j = (if 0 <? HistoryReplayBuffer c
            then Z.to_nat (Z.of_nat (length tr) - HistoryReplayBuffer c)
            else 0%nat).
Proof.
  intros Hr. destruct (reach_hub_inv _ _ _ Hr) as (_ & _ & _ & Hb).
  unfold retained in Hb.
  destruct (0 <? HistoryReplayBuffer c) eqn:E.
  - apply Z.ltb_lt in E. eexists. split; [|split; [exact Hb|done]]. lia.
  - exists 0%nat. split; [lia|]. by rewrite drop_0.
Qed.

Lemma reach_buffer_ids c tr w :
  reach c tr w -> Z.of_nat (length tr) < 2 ^ 64 ->
  let b := messageBuffer (hub w) in
  msg_id <$> b
  = Some <$> seqZ (Z.of_nat (length tr) - Z.of_nat (length b) + 1)
               (Z.of_nat (length b)).
Proof.
  intros Hr Hn b.
  destruct (reach_buffer _ _ _ Hr) as (j & Hj & Hb & _).
  destruct (reach_trace_ids _ _ _ Hr Hn) as [_ Hids].
  subst b. rewrite Hb, length_drop, fmap_drop, Hids, <- fmap_drop.
  rewrite seqZ_drop by done. do 2 f_equal; lia.
Qed.

End replay_facts.

(** ** Fan-out *)

Section fanout_facts.

Lemma preserves_ret {A} P (a : A) : preserves P (mret a).
Proof. intros w Hw. exact Hw. Qed.

Lemma preserves_bind {A B} P (m : M A) (k : A -> M B) :
  preserves P m -> (forall a, preserves P (k a)) -> preserves P (m ≫= k).
Proof.
  intros Hm Hk w Hw. unfold mbind, M_bind.
  specialize (Hm w Hw). destruct (m w) as [a w'| |]; simpl in *; try done.
  by apply Hk.
Qed.

Lemma preserves_for_range {A} P (l : list A) (body : A -> M unit) :
  (forall x, preserves P (body x)) -> preserves P (for_range l body).
Proof.
  intros Hbody. induction l as [|x l IH]; simpl.
  - apply preserves_ret.
  - apply preserves_bind; [apply Hbody|]. intros _. apply IH.
Qed.

Lemma preserves_range_Channels P target channels client msg :
  preserves P (chan_send (Send client) msg) ->
  preserves P (range_Channels target channels client msg).
Proof.
  intros Hsend. induction channels as [|channel channels IH]; simpl.
  - apply preserves_ret.
  - case_decide; [apply Hsend|apply IH].
Qed.

Lemma preserves_fanout P order broadcast msg :
  (forall ch, preserves P (chan_send ch msg)) ->
  preserves P (fanout order broadcast msg).
Proof.
  intros Hsend.
  apply preserves_for_range. intros client.
  apply preserves_for_range. intros target.
  apply preserves_range_Channels, Hsend.
Qed.

(** If some iteration of a loop cannot return, neither can the loop. *)
Lemma for_range_stuck {A} P (l : list A) (body : A -> M unit) x0 :
  (forall x, preserves P (body x)) ->
  x0 ∈ l ->
  (forall w a w', P w -> body x0 w <> Returned a w') ->
  forall w a w', P w -> for_range l body w <> Returned a w'.
Proof.
  intros Hpres Hin Hstuck.
  induction l as [|x l IH]; intros w a w' Hw; [by apply elem_of_nil in Hin|].
  simpl. unfold mbind, M_bind.
  destruct (body x w) as [[] w1| |] eqn:E; try done.
  apply elem_of_cons in Hin as [<-|Hin].
  - by apply Hstuck in E.
  - apply IH; [done|]. specialize (Hpres x w Hw). by rewrite E in Hpres.
Qed.

Lemma for_range_no_panic {A} P (l : list A) (body : A -> M unit) :
  (forall x, preserves P (body x)) ->
  (forall x w w', P w -> body x w <> Panicked w') ->
  forall w w', P w -> for_range l body w <> Panicked w'.
Proof.
  intros Hpres Hbody.
  induction l as [|x l IH]; intros w w' Hw; [done|].
  simpl. unfold mbind, M_bind.
  destruct (body x w) as [[] w1| |] eqn:E; try done.
  - apply IH. specialize (Hpres x w Hw). by rewrite E in Hpres.
  - by apply Hbody in E.
Qed.

Lemma chan_send_full ch c m w :
  full_queue ch c w -> chan_send ch m w = Blocked w.
Proof.
  intros (Hl & Ho & Hf). unfold chan_send. rewrite Hl, Ho.
  destruct (length (chan_buf c) <? chan_cap c)%nat eqn:E; [|done].
  apply Nat.ltb_lt in E. lia.
Qed.

Lemma preserves_full_queue ch c ch' m :
  preserves (full_queue ch c) (chan_send ch' m).
Proof.
  intros w Hw. destruct (decide (ch' = ch)) as [->|Hne].
  - by rewrite (chan_send_full ch c).
  - destruct Hw as (Hl & Ho & Hf). unfold chan_send.
    destruct (chans w !! ch') as [c'|]; [|done].
    destruct (chan_closed c'); [done|].
    destruct (length (chan_buf c') <? chan_cap c')%nat; [|done].
    split; [|done]. simpl. by rewrite lookup_insert_ne.
Qed.

Lemma preserves_all_open ch m : preserves all_open (chan_send ch m).
Proof.
  intros w Hw. unfold chan_send.
  destruct (chans w !! ch) as [c|] eqn:Hc; [|done].
  destruct (chan_closed c); [done|].
  destruct (length (chan_buf c) <? chan_cap c)%nat; [|done].
  intros l c'. simpl. rewrite lookup_insert. case_decide.
  - by intros [= <-].
  - apply Hw.
Qed.

Lemma chan_send_no_panic ch m w w' :
  all_open w -> chan_send ch m w <> Panicked w'.
Proof.
  intros Hw. unfold chan_send.
  destruct (chans w !! ch) as [c|] eqn:Hc; [|done].
  rewrite (Hw _ _ Hc).
  destruct (length (chan_buf c) <? chan_cap c)%nat; done.
Qed.

Lemma range_Channels_no_panic target channels client msg w w' :
  all_open w -> range_Channels target channels client msg w <> Panicked w'.
Proof.
  intros Hw. induction channels as [|channel channels IH]; simpl; [done|].
  case_decide; [by apply chan_send_no_panic|done].
Qed.

Lemma fanout_no_panic order broadcast msg w w' :
  all_open w -> fanout order broadcast msg w <> Panicked w'.
Proof.
  apply (for_range_no_panic all_open).
  - intros client. apply preserves_for_range. intros target.
    apply preserves_range_Channels, preserves_all_open.
  - intros client w1 w1'. apply (for_range_no_panic all_open).
    + intros target. apply preserves_range_Channels, preserves_all_open.
    + intros target w2 w2'. apply range_Channels_no_panic.
Qed.

Lemma range_Channels_stuck target channels client msg c w a w' :
  target ∈ channels ->
  full_queue (Send client) c w ->
  range_Channels target channels client msg w <> Returned a w'.
Proof.
  intros Hin Hw. induction channels as [|channel channels IH];
    [by apply elem_of_nil in Hin|].
  simpl. case_decide as Heq.
  - by rewrite (chan_send_full _ c).
  - apply IH. apply elem_of_cons in Hin as [?|?]; done.
Qed.

(** The fan-out does not get past a registered client that follows one
    of the targets and whose queue is full: the send parks the caller
    (or an earlier send panicked), and the full queue is as it was. *)
Lemma fanout_full_queue order broadcast msg client target c w :
  client ∈ order ->
  target ∈ broadcast -> target ∈ Channels client ->
  full_queue (Send client) c w ->
  exists w',
    (fanout order broadcast msg w = Blocked w'
     \/ fanout order broadcast msg w = Panicked w')
    /\ full_queue (Send client) c w'
    /\ hub w' = hub w.
Proof.
  intros Hc Ht Hch Hw.
  pose proof (preserves_fanout (full_queue (Send client) c)
                order broadcast msg
                (fun ch => preserves_full_queue _ _ ch msg) w Hw) as Hfull.
  pose proof (hub_stable_fanout order broadcast msg w) as Hhub.
  assert (forall a w', fanout order broadcast msg w <> Returned a w') as Hret.
  { intros a w'.
    apply (for_range_stuck (full_queue (Send client) c) order _ client);
      [|done| |done].
    - intros cl. apply preserves_for_range. intros tg.
      apply preserves_range_Channels, preserves_full_queue.
    - intros w1 a1 w1'.
      apply (for_range_stuck (full_queue (Send client) c) broadcast _ target);
        [|done|].
      + intros tg. apply preserves_range_Channels, preserves_full_queue.
      + intros w2 a2 w2' Hw2. by eapply range_Channels_stuck. }
  destruct (fanout order broadcast msg w) as [a w'|w'|w'] eqn:E.
  - by destruct (Hret a w').
  - exists w'. eauto.
  - exists w'. eauto.
Qed.

Lemma range_clients_elem_of h order client :
  range_clients h order ->
  clients h !! connID client = Some client ->
  client ∈ order.
Proof.
  intros Hperm Hreg. unfold range_clients in Hperm. rewrite Hperm.
  apply list_elem_of_fmap. exists (connID client, client). split; [done|].
  by apply elem_of_map_to_list.
Qed.

End fanout_facts.

(** ** What one client is sent *)

Section client_sends.

Lemma range_Channels_elem target channels client msg w :
  target ∈ channels ->
  range_Channels target channels client msg w = chan_send (Send client) msg w.
Proof.
  induction channels as [|channel channels IH]; intros Hin;
    [by apply elem_of_nil in Hin|].
  simpl. case_decide as Heq; [done|].
  apply IH. apply elem_of_cons in Hin as [?|?]; done.
Qed.

Lemma range_Channels_not_elem target channels client msg w :
  target ∉ channels ->
  range_Channels target channels client msg w = Returned tt w.
Proof.
  induction channels as [|channel channels IH]; intros Hin; [done|].
  simpl. apply not_elem_of_cons in Hin as [Hne Hin].
  rewrite decide_False by done. by apply IH.
Qed.

Lemma chan_send_room ch c m w :
  chans w !! ch = Some c -> chan_closed c = false ->
  (length (chan_buf c) < chan_cap c)%nat ->
  chan_send ch m w
  = Returned tt
      (mkWorld (hub w)
         (<[ch := mkChan (chan_buf c ++ [m]) (chan_cap c) false]> (chans w))).
Proof.
  intros Hl Ho Hroom. unfold chan_send. rewrite Hl, Ho.
  destruct (length (chan_buf c) <? chan_cap c)%nat eqn:E; [done|].
  apply Nat.ltb_ge in E. lia.
Qed.

(** The loop over the targets sends the record to a client once for each
    target found among the client's channels, when the queue has room for
    that many. *)
Lemma range_targets_sends client broadcast msg w c :
  chans w !! Send client = Some c -> chan_closed c = false ->
  (length (chan_buf c) + sends_to client broadcast <= chan_cap c)%nat ->
  for_range broadcast
    (fun target => range_Channels target (Channels client) client msg) w
  = Returned tt
      (mkWorld (hub w)
         (<[Send client :=
              mkChan (chan_buf c ++ replicate (sends_to client broadcast) msg)
                (chan_cap c) false]> (chans w))).
Proof.
  revert w c. unfold sends_to.
  induction broadcast as [|target broadcast IH]; intros w c Hl Ho Hroom.
  - simpl. rewrite app_nil_r. destruct w as [h σ], c as [buf cap closed].
    simpl in *. subst closed. by rewrite insert_id.
  - simpl for_range. unfold mbind, M_bind.
    rewrite filter_cons in Hroom |- *.
    case_decide as Hin.
    + simpl length in Hroom |- *.
      rewrite range_Channels_elem by done.
      rewrite (chan_send_room _ c) by (done || lia).
      erewrite IH; [|by apply lookup_insert_eq|done|simpl; rewrite length_app; simpl; lia].
      simpl. rewrite insert_insert_eq, <- app_assoc. done.
    + rewrite range_Channels_not_elem by done. by apply IH.
Qed.

(** A client none of whose channels is among the targets is sent nothing:
    the queue behind [ch] is untouched by the fan-out when every client
    that sends on [ch] is such a client. *)
Lemma fanout_disjoint order broadcast msg ch c :
  (forall client, client ∈ order -> Send client = ch ->
                  sends_to client broadcast = 0%nat) ->
  preserves (fun w => chans w !! ch = Some c) (fanout order broadcast msg).
Proof.
  intros Hdisj. unfold fanout.
  induction order as [|client order IH]; simpl.
  - apply preserves_ret.
  - apply preserves_bind.
    + destruct (decide (Send client = ch)) as [Heq|Hne].
      * specialize (Hdisj client ltac:(left) Heq). unfold sends_to in Hdisj.
        apply length_zero_iff_nil in Hdisj.
        clear IH. induction broadcast as [|target broadcast IHb]; simpl.
        { apply preserves_ret. }
        rewrite filter_cons in Hdisj. case_decide as Hin; [done|].
        apply preserves_bind; [|intros _; by apply IHb].
        intros w Hw. by rewrite range_Channels_not_elem.
      * apply preserves_for_range. intros target.
        apply preserves_range_Channels.
        intros w Hw. unfold chan_send.
        destruct (chans w !! Send client) as [c'|]; [|done].
        destruct (chan_closed c'); [done|].
        destruct (length (chan_buf c') <? chan_cap c')%nat; [|done].
        simpl. by rewrite lookup_insert_ne.
    + intros _. apply IH. intros cl Hcl. apply Hdisj. by right.
Qed.

End client_sends.

(** ** Unregistering *)

Section unregister_facts.

Lemma unregister_unknown client w :
  clients (hub w) !! connID client = None ->
  unregister client w = Returned tt w.
Proof.
  intros Hnone. unfold unregister, mbind, M_bind, getHub.
  by rewrite Hnone.
Qed.

Lemma unregister_registered client w c :
  is_Some (clients (hub w) !! connID client) ->
  chans w !! Send client = Some c -> chan_closed c = false ->
  unregister client w
  = Returned tt
      (mkWorld (set_clients (delete (connID client)) (hub w))
         (<[Send client := mkChan (chan_buf c) (chan_cap c) true]> (chans w))).
Proof.
  intros [cl Hcl] Hl Ho. unfold unregister, mbind, M_bind, getHub, modifyHub.
  rewrite Hcl. unfold chan_close. simpl. by rewrite Hl, Ho.
Qed.

Lemma unregister_removes client w :
  clients (hub (world_of (unregister client w))) !! connID client = None.
Proof.
  rewrite unregister_hub.
  destruct (clients (hub w) !! connID client) eqn:E; [|done].
  apply lookup_delete_eq.
Qed.

End unregister_facts.

(** ** Decimal strings *)

Section decimal_facts.

Lemma dec_digit_digit_val c d :
  dec_digit c = Some d <-> digit_val c = Some d /\ d < 10.
Proof.
  unfold dec_digit, digit_val. cbv zeta.
  set (n := Z.of_nat (nat_of_ascii c)).
  destruct ((48 <=? n) && (n <=? 57)) eqn:E1.
  - apply andb_true_iff in E1 as [H1 H2].
    apply Z.leb_le in H1, H2.
    split; [intros [= <-]; split; [done|lia]|intros [[= <-] _]; done].
  - apply andb_false_iff in E1.
    destruct ((97 <=? n) && (n <=? 122)) eqn:E2.
    { apply andb_true_iff in E2 as [H1 H2]. apply Z.leb_le in H1, H2.
      split; [done|intros [[= <-] ?]; lia]. }
    destruct ((65 <=? n) && (n <=? 90)) eqn:E3.
    { apply andb_true_iff in E3 as [H1 H2]. apply Z.leb_le in H1, H2.
      split; [done|intros [[= <-] ?]; lia]. }
    split; [done|intros [? _]; done].
Qed.

Lemma dec_digit_bound c d : dec_digit c = Some d -> 0 <= d < 10.
Proof.
  unfold dec_digit. cbv zeta.
  destruct ((48 <=? _) && (_ <=? 57)) eqn:E; [|done].
  apply andb_true_iff in E as [H1 H2]. apply Z.leb_le in H1, H2.
  intros [= <-]. lia.
Qed.

Lemma dec_value_ge acc s n : 0 <= acc -> dec_value acc s = Some n -> acc <= n.
Proof.
  revert acc. induction s as [|c s IH]; intros acc Hacc; simpl.
  - intros [= <-]. lia.
  - destruct (dec_digit c) as [d|] eqn:Hd; [|done].
    apply dec_digit_bound in Hd. intros Hv. apply IH in Hv; lia.
Qed.

Lemma parse_loop_decimal acc s n :
  0 <= acc < 2 ^ 64 ->
  parse_loop 10 (maxUint64 / 10 + 1) (2 ^ 64 - 1) acc s = Ok n
  <-> dec_value acc s = Some n /\ n < 2 ^ 64.
Proof.
  assert (maxUint64 / 10 + 1 = 1844674407370955162) as -> by reflexivity.
  assert (2 ^ 64 = 18446744073709551616) as -> by reflexivity.
  revert acc. induction s as [|c s IH]; intros acc Hacc.
  - simpl. split; [intros [= <-]; split; [done|lia]|intros [[= <-] _]; done].
  - cbn [parse_loop dec_value].
    destruct (dec_digit c) as [d|] eqn:Hd.
    + pose proof (dec_digit_bound _ _ Hd) as Hb.
      apply dec_digit_digit_val in Hd as [-> _].
      destruct (10 <=? d) eqn:E1; [apply Z.leb_le in E1; lia|].
      destruct (1844674407370955162 <=? acc) eqn:E2.
      { apply Z.leb_le in E2. split; [done|].
        intros [Hv Hn]. apply dec_value_ge in Hv; lia. }
      apply Z.leb_gt in E2. cbv zeta.
      rewrite (Z.mod_small (acc * 10)) by lia.
      destruct (Z_lt_dec (acc * 10 + d) 18446744073709551616) as [Hs|Hs].
      * rewrite (Z.mod_small (acc * 10 + d)) by lia.
        destruct (acc * 10 + d <? acc * 10) eqn:E3;
          [apply Z.ltb_lt in E3; lia|].
        destruct (18446744073709551616 - 1 <? acc * 10 + d) eqn:E4;
          [apply Z.ltb_lt in E4; lia|].
        simpl. apply IH. lia.
      * assert ((acc * 10 + d) mod 2 ^ 64
                = acc * 10 + d - 18446744073709551616) as ->.
        { change (2 ^ 64) with 18446744073709551616.
          symmetry. apply (Z.mod_unique_pos _ _ 1); lia. }
        destruct (_ <? acc * 10) eqn:E3; [|apply Z.ltb_ge in E3; lia].
        simpl. split; [done|].
        intros [Hv Hn]. apply dec_value_ge in Hv; lia.
    + destruct (digit_val c) as [d|] eqn:Hdv; [|split; [done|intros [? _]; done]].
      destruct (10 <=? d) eqn:E1; [split; [done|intros [? _]; done]|].
      apply Z.leb_gt in E1.
      assert (dec_digit c = Some d) as Hd' by (by apply dec_digit_digit_val).
      congruence.
Qed.

(** [ParseUint(s, 10, 64)] succeeds exactly on the decimal notations of
    the unsigned 64-bit integers, and returns the number denoted. *)
Lemma ParseUint_decimal s n :
  ParseUint s 10 64 = Ok n <-> decimal_uint64 s n.
Proof.
  unfold decimal_uint64, ParseUint. destruct s as [|c s].
  - split; [done|intros [? _]; done].
  - cbv zeta.
    rewrite parse_loop_decimal by (split; [lia|reflexivity]).
    split; [intros [? ?]; done|intros (_ & ? & ?); done].
Qed.

End decimal_facts.

(** ** Backoff *)

Section backoff_facts.

Import Reconnection.

Lemma waits_app out1 out2 : waits (out1 ++ out2) = waits out1 ++ waits out2.
Proof.
  induction out1 as [|[d|id|] out1 IH]; simpl; [done| |done|done].
  by rewrite IH.
Qed.






End backoff_facts.

(** * The claims of the specification *)

Section scenario_facts.

Lemma reach_published c n :
  reach c (Scenario.published c n).1 (Scenario.published c n).2.
Proof.
  induction n as [|n IH].
  - constructor.
  - cbn [Scenario.published].
    destruct (Scenario.published c n) as [tr w].
    by apply reach_Broadcast.
Qed.

End scenario_facts.

(** C1, as the code has it: a full queue parks the publisher.  When a
    registered client follows one of the targets and its queue is open and
    full, [Broadcast] does not return: after the id is assigned and the
    record appended to the history, the call is parked on a send (or an
    earlier send hit a closed channel and panicked; with no closed channel
    it is parked).  The full queue is left as it was: nothing is dropped,
    nothing is counted. *)
Theorem Broadcast_full_queue_blocks
    data broadcast handlerID order w client target c :
  range_clients (hub w) order ->
  clients (hub w) !! connID client = Some client ->
  target ∈ broadcast -> target ∈ Channels client ->
  full_queue (Send client) c w ->
  exists w',
    (Broadcast data broadcast handlerID order w = Blocked w'
     \/ Broadcast data broadcast handlerID order w = Panicked w')
    /\ (all_open w -> Broadcast data broadcast handlerID order w = Blocked w')
    /\ chans w' !! Send client = Some c
    /\ hub w' = (stamp data broadcast handlerID (hub w)).1.
Proof.
  intros Horder Hreg Ht Hch Hfull.
  pose proof (range_clients_elem_of _ _ _ Horder Hreg) as Hin.
  unfold Broadcast, mbind, M_bind, getHub, modifyHub.
  destruct (stamp data broadcast handlerID (hub w)) as [h' msg] eqn:E.
  simpl.
  destruct (fanout_full_queue order broadcast msg client target c
              (mkWorld h' (chans w)) Hin Ht Hch Hfull)
    as (w' & Hout & (Hl & _) & Hhub).
  exists w'. split; [done|]. split; [|done].
  intros Hopen. destruct Hout as [Hb|Hp]; [done|].
  by apply (fanout_no_panic order broadcast msg (mkWorld h' (chans w))) in Hp.
Qed.

(** Queue capacity 1, two publishes with no drain in between: the first
    record is enqueued, the second publish is parked with the queue still
    holding the first record only. *)
Lemma Broadcast_full_queue_blocks_witness :
  Broadcast [] ["x"] 0 [Scenario.subscriber] Scenario.registered
  = Returned tt Scenario.first_published
  /\ chans Scenario.first_published !! 0%nat
     = Some (mkChan [Scenario.record 1] 1 false)
  /\ exists w',
       Broadcast [] ["x"] 0 [Scenario.subscriber] Scenario.first_published
       = Blocked w'
       /\ chans w' !! 0%nat = Some (mkChan [Scenario.record 1] 1 false)
       /\ messageBuffer (hub w') = [Scenario.record 1; Scenario.record 2].
Proof.
  split; [vm_compute; reflexivity|]. split; [vm_compute; reflexivity|].
  destruct (Broadcast_full_queue_blocks [] ["x"] 0 [Scenario.subscriber]
              Scenario.first_published Scenario.subscriber "x"
              (mkChan [Scenario.record 1] 1 false))
    as (w' & _ & Hblocked & Hqueue & Hhub).
  - unfold range_clients. vm_compute. reflexivity.
  - vm_compute. reflexivity.
  - constructor.
  - constructor.
  - split; [vm_compute; reflexivity|]. split; [reflexivity|simpl; lia].
  - exists w'. split; [|split].
    + apply Hblocked. intros l c.
      assert (chans Scenario.first_published
              = {[ 0%nat := mkChan [Scenario.record 1] 1 false ]}) as ->
        by (vm_compute; reflexivity).
      intros Hl. by apply lookup_singleton_Some in Hl as [_ <-].
    + exact Hqueue.
    + rewrite Hhub. vm_compute. reflexivity.
Defined.

(** C1 as the specification states it fails: with queue capacity 1 the
    second of two publishes does not return, it is parked on the send. *)
Lemma Broadcast_full_queue_does_not_return :
  full_queue (Send Scenario.subscriber) (mkChan [Scenario.record 1] 1 false)
    Scenario.first_published
  /\ Broadcast [] ["x"] 0 [Scenario.subscriber] Scenario.first_published
     = Blocked
         (mkWorld
            (mkSSEHub {[ "conn-1" := Scenario.subscriber ]}
               [Scenario.record 1; Scenario.record 2] Scenario.cfg 2)
            {[ 0%nat := mkChan [Scenario.record 1] 1 false ]})
  /\ ~ exists w',
       Broadcast [] ["x"] 0 [Scenario.subscriber] Scenario.first_published
       = Returned tt w'.
Proof.
  assert (Broadcast [] ["x"] 0 [Scenario.subscriber] Scenario.first_published
          = Blocked
              (mkWorld
                 (mkSSEHub {[ "conn-1" := Scenario.subscriber ]}
                    [Scenario.record 1; Scenario.record 2] Scenario.cfg 2)
                 {[ 0%nat := mkChan [Scenario.record 1] 1 false ]})) as E
    by (vm_compute; reflexivity).
  split; [|split; [exact E|]].
  - split; [vm_compute; reflexivity|]. split; [reflexivity|simpl; lia].
  - intros [w' Hw']. rewrite E in Hw'. discriminate.
Qed.

(** C2, at the input where the code departs from it: a client that follows
    ["A"] and ["B"] is sent a record that targets ["A"] and ["B"] twice,
    once for each matching target; the [break] of hub.go 53 only leaves
    the loop over the client's channels. *)
Theorem Broadcast_two_matching_targets_twice :
  range_clients (hub Scenario.registered_AB) [Scenario.subscriber_AB]
  /\ sends_to Scenario.subscriber_AB ["A"; "B"] = 2%nat
  /\ Broadcast [] ["A"; "B"] 0 [Scenario.subscriber_AB] Scenario.registered_AB
     = Returned tt
         (mkWorld
            (mkSSEHub {[ "conn-2" := Scenario.subscriber_AB ]}
               [mkSSEMessage "1" [] ["A"; "B"] 0] Scenario.cfg 1)
            {[ 0%nat := mkChan [mkSSEMessage "1" [] ["A"; "B"] 0;
                                mkSSEMessage "1" [] ["A"; "B"] 0] 2 false ]}).
Proof.
  split; [unfold range_clients; vm_compute; reflexivity|].
  split; vm_compute; reflexivity.
Qed.

(** C3 as the specification states it fails: with [HistoryReplayBuffer]
    unset, three publishes are all kept and a replay from watermark ["1"]
    returns the records 2 and 3. *)
Lemma unset_history_replays :
  HistoryReplayBuffer Scenario.cfg_unset = 0
  /\ GetMessagesSince "1" (Scenario.published Scenario.cfg_unset 3).2
     = Returned [Scenario.record 2; Scenario.record 3]
         (Scenario.published Scenario.cfg_unset 3).2.
Proof. split; vm_compute; reflexivity. Qed.

(** C3, as the code has it: with [HistoryReplayBuffer] zero, unset or
    negative the buffer is never trimmed.  It holds every published
    record, and a replay from a watermark that parses as [wm] returns all
    the records published after the [wm]-th. *)
Theorem unbounded_history c tr w lastEventID wm :
  reach c tr w ->
  HistoryReplayBuffer c <= 0 ->
  Z.of_nat (length tr) < 2 ^ 64 ->
  ParseUint lastEventID 10 64 = Ok wm ->
  messageBuffer (hub w) = tr
  /\ GetMessagesSince lastEventID w = Returned (drop (Z.to_nat wm) tr) w
  /\ drop (Z.to_nat wm) tr = filter (newer_than wm) tr.
Proof.
  intros Hr HN Hn Hp.
  destruct (reach_buffer _ _ _ Hr) as (j & _ & Hb & Hj).
  destruct (0 <? HistoryReplayBuffer c) eqn:E; [apply Z.ltb_lt in E; lia|].
  subst j. rewrite drop_0 in Hb.
  destruct (reach_trace_ids _ _ _ Hr Hn) as [_ Hids].
  pose proof (filter_newer_seq wm tr 1 Hids) as Hf.
  replace (wm + 1 - 1) with wm in Hf by lia.
  split; [done|]. rewrite (GetMessagesSince_Ok _ wm) by done.
  by rewrite Hb, Hf.
Qed.

Lemma unbounded_history_witness :
  HistoryReplayBuffer Scenario.cfg_unset <= 0
  /\ ParseUint "1" 10 64 = Ok 1
  /\ messageBuffer (hub (Scenario.published Scenario.cfg_unset 3).2)
     = (Scenario.published Scenario.cfg_unset 3).1
  /\ GetMessagesSince "1" (Scenario.published Scenario.cfg_unset 3).2
     = Returned (drop (Z.to_nat 1) (Scenario.published Scenario.cfg_unset 3).1)
         (Scenario.published Scenario.cfg_unset 3).2.
Proof.
  assert (HistoryReplayBuffer Scenario.cfg_unset <= 0) as HN by (simpl; lia).
  assert (ParseUint "1" 10 64 = Ok 1) as Hp by reflexivity.
  split; [exact HN|]. split; [exact Hp|].
  destruct (unbounded_history Scenario.cfg_unset
              (Scenario.published Scenario.cfg_unset 3).1
              (Scenario.published Scenario.cfg_unset 3).2 "1" 1
              (reach_published _ _) HN ltac:(vm_compute; reflexivity) Hp)
    as (Hb & Hg & _).
  split; [exact Hb|exact Hg].
Defined.

(** C4 as the specification states it fails: five publishes with history
    capacity 3 leave the records 3, 4 and 5 in the buffer, and a replay
    from the zero watermark ["0"] returns all three, not nothing. *)
Lemma zero_watermark_replays_everything :
  GetMessagesSince "0" (Scenario.published Scenario.cfg 5).2
  = Returned [Scenario.record 3; Scenario.record 4; Scenario.record 5]
      (Scenario.published Scenario.cfg 5).2.
Proof. vm_compute. reflexivity. Qed.

(** C4, as the code has it: in every world of a run a replay returns
    nothing for the absent (empty) watermark; for a watermark that parses
    as [wm] it returns exactly the buffered records with id strictly
    greater than [wm], in ascending id order; and the watermark ["0"] is
    an ordinary one: since every id is at least 1, it returns the whole
    buffer. *)
Theorem GetMessagesSince_newer c tr w lastEventID wm :
  reach c tr w ->
  Z.of_nat (length tr) < 2 ^ 64 ->
  ParseUint lastEventID 10 64 = Ok wm ->
  GetMessagesSince EmptyString w = Returned [] w
  /\ GetMessagesSince lastEventID w
     = Returned (filter (newer_than wm) (messageBuffer (hub w))) w
  /\ (forall m, m ∈ filter (newer_than wm) (messageBuffer (hub w))
                <-> m ∈ messageBuffer (hub w)
                    /\ exists k, msg_id m = Some k /\ wm < k)
  /\ StronglySorted id_lt (filter (newer_than wm) (messageBuffer (hub w)))
  /\ GetMessagesSince "0" w = Returned (messageBuffer (hub w)) w.
Proof.
  intros Hr Hn Hp.
  pose proof (reach_buffer_ids _ _ _ Hr Hn) as Hids. cbv zeta in Hids.
  split; [reflexivity|]. split; [by apply GetMessagesSince_Ok|].
  split; [|split].
  - intros m. rewrite list_elem_of_filter. unfold newer_than.
    destruct (msg_id m) as [k|].
    + split; [intros [? ?]; eauto|intros [? (k' & [= <-] & ?)]; done].
    + split; [intros [[] _]|intros [_ (k' & ? & _)]; done].
  - rewrite (filter_newer_seq wm _ _ Hids).
    apply StronglySorted_drop. by eapply id_lt_seq.
  - rewrite (GetMessagesSince_Ok "0" 0) by reflexivity.
    rewrite (filter_newer_seq 0 _ _ Hids).
    destruct (reach_buffer _ _ _ Hr) as (j & Hj & Hb & _).
    rewrite Hb, length_drop.
    replace (Z.to_nat (0 + 1 - (Z.of_nat (length tr)
                                 - Z.of_nat (length tr - j) + 1)))
      with 0%nat by lia.
    done.
Qed.

Lemma GetMessagesSince_newer_witness :
  ParseUint "2" 10 64 = Ok 2
  /\ GetMessagesSince "2" (Scenario.published Scenario.cfg 5).2
     = Returned
         (filter (newer_than 2)
            (messageBuffer (hub (Scenario.published Scenario.cfg 5).2)))
         (Scenario.published Scenario.cfg 5).2
  /\ filter (newer_than 2)
       (messageBuffer (hub (Scenario.published Scenario.cfg 5).2))
     = [Scenario.record 3; Scenario.record 4; Scenario.record 5].
Proof.
  assert (ParseUint "2" 10 64 = Ok 2) as Hp by reflexivity.
  split; [exact Hp|].
  destruct (GetMessagesSince_newer Scenario.cfg
              (Scenario.published Scenario.cfg 5).1
              (Scenario.published Scenario.cfg 5).2 "2" 2
              (reach_published _ _) ltac:(vm_compute; reflexivity) Hp)
    as (_ & Hg & _).
  split; [exact Hg|vm_compute; reflexivity].
Defined.

(** C5 as the specification states it fails: with the records 3, 4 and 5
    buffered, the watermark ["1"] is older than the oldest buffered id,
    and the replay returns the three buffered records, not nothing. *)
Lemma stale_watermark_replays_buffer :
  msg_id <$> messageBuffer (hub (Scenario.published Scenario.cfg 5).2)
  = [Some 3; Some 4; Some 5]
  /\ GetMessagesSince "1" (Scenario.published Scenario.cfg 5).2
     = Returned [Scenario.record 3; Scenario.record 4; Scenario.record 5]
         (Scenario.published Scenario.cfg 5).2.
Proof. split; vm_compute; reflexivity. Qed.

(** C5, as the code has it: when the watermark is older than the oldest
    buffered id, the replay returns the whole buffer (every buffered
    record is newer than the watermark); it is not an error. *)
Theorem GetMessagesSince_stale_watermark
    c tr w lastEventID wm oldest rest k :
  reach c tr w ->
  Z.of_nat (length tr) < 2 ^ 64 ->
  messageBuffer (hub w) = oldest :: rest ->
  msg_id oldest = Some k ->
  ParseUint lastEventID 10 64 = Ok wm ->
  wm < k ->
  GetMessagesSince lastEventID w = Returned (messageBuffer (hub w)) w.
Proof.
  intros Hr Hn Hb Hk Hp Hlt.
  pose proof (reach_buffer_ids _ _ _ Hr Hn) as Hids. cbv zeta in Hids.
  rewrite (GetMessagesSince_Ok _ wm) by done.
  rewrite (filter_newer_seq wm _ _ Hids).
  rewrite Hb in Hids. simpl length in Hids.
  rewrite seqZ_cons in Hids by lia. rewrite !fmap_cons in Hids.
  injection Hids as Hid _. rewrite Hk in Hid. injection Hid as Hid.
  rewrite Hb. simpl length. rewrite <- Hid.
  replace (Z.to_nat (wm + 1 - k)) with 0%nat by lia. done.
Qed.

Lemma GetMessagesSince_stale_watermark_witness :
  messageBuffer (hub (Scenario.published Scenario.cfg 5).2)
  = Scenario.record 3 :: [Scenario.record 4; Scenario.record 5]
  /\ msg_id (Scenario.record 3) = Some 3
  /\ ParseUint "1" 10 64 = Ok 1
  /\ 1 < 3
  /\ GetMessagesSince "1" (Scenario.published Scenario.cfg 5).2
     = Returned (messageBuffer (hub (Scenario.published Scenario.cfg 5).2))
         (Scenario.published Scenario.cfg 5).2.
Proof.
  assert (messageBuffer (hub (Scenario.published Scenario.cfg 5).2)
          = Scenario.record 3 :: [Scenario.record 4; Scenario.record 5])
    as Hb by (vm_compute; reflexivity).
  assert (msg_id (Scenario.record 3) = Some 3) as Hk by reflexivity.
  assert (ParseUint "1" 10 64 = Ok 1) as Hp by reflexivity.
  assert (1 < 3) as Hlt by lia.
  split; [exact Hb|]. split; [exact Hk|]. split; [exact Hp|].
  split; [exact Hlt|].
  exact (GetMessagesSince_stale_watermark Scenario.cfg
           (Scenario.published Scenario.cfg 5).1
           (Scenario.published Scenario.cfg 5).2 "1" 1
           (Scenario.record 3) [Scenario.record 4; Scenario.record 5] 3
           (reach_published _ _) ltac:(vm_compute; reflexivity)
           Hb Hk Hp Hlt).
Defined.

(** C6: in a run that starts from [NewHub], whatever calls come between
    the publishes, the k-th [Broadcast] is assigned the id k: the ids of
    the stamped records are 1, 2, ..., n, strictly increasing and without
    repetition, and the counter stands at n.  ([n] within the range of the
    [uint64] counter.) *)
Theorem publish_ids_sequential c tr w :
  reach c tr w ->
  Z.of_nat (length tr) < 2 ^ 64 ->
  (forall k m, tr !! k = Some m ->
     ID m = FormatUint (Z.of_nat k + 1) 10
     /\ msg_id m = Some (Z.of_nat k + 1))
  /\ ID <$> tr = (fun k => FormatUint k 10) <$> seqZ 1 (Z.of_nat (length tr))
  /\ NoDup (ID <$> tr)
  /\ StronglySorted id_lt tr
  /\ lastID (hub w) = Z.of_nat (length tr).
Proof.
  intros Hr Hn.
  destruct (reach_trace_ids _ _ _ Hr Hn) as [HID Hids].
  destruct (reach_hub_inv _ _ _ Hr) as (_ & Hl & _ & _).
  split; [|split; [done|split; [|split]]].
  - intros k m Hk.
    assert ((ID <$> tr) !! k = Some (ID m)) as H1
      by (by rewrite list_lookup_fmap, Hk).
    assert ((msg_id <$> tr) !! k = Some (msg_id m)) as H2
      by (by rewrite list_lookup_fmap, Hk).
    apply lookup_lt_Some in Hk.
    rewrite HID, list_lookup_fmap, lookup_seqZ_lt in H1 by lia.
    rewrite Hids, list_lookup_fmap, lookup_seqZ_lt in H2 by lia.
    simpl in H1, H2. injection H1 as H1. injection H2 as H2.
    rewrite <- H1, <- H2. split; f_equal; lia.
  - rewrite HID. apply NoDup_fmap_2_strong; [|apply NoDup_seqZ].
    intros x y Hx Hy. apply elem_of_seqZ in Hx, Hy.
    apply FormatUint_inj; lia.
  - eapply id_lt_seq. exact Hids.
  - rewrite Hl. apply Z.mod_small. lia.
Qed.

Lemma publish_ids_sequential_witness :
  Z.of_nat (length (Scenario.published Scenario.cfg 5).1) < 2 ^ 64
  /\ ID <$> (Scenario.published Scenario.cfg 5).1 = ["1"; "2"; "3"; "4"; "5"]
  /\ lastID (hub (Scenario.published Scenario.cfg 5).2) = 5.
Proof.
  assert (Z.of_nat (length (Scenario.published Scenario.cfg 5).1) < 2 ^ 64)
    as Hn by (vm_compute; reflexivity).
  split; [exact Hn|].
  destruct (publish_ids_sequential Scenario.cfg
              (Scenario.published Scenario.cfg 5).1
              (Scenario.published Scenario.cfg 5).2
              (reach_published _ _) Hn)
    as (_ & HID & _ & _ & Hl).
  split; [rewrite HID|rewrite Hl]; vm_compute; reflexivity.
Defined.

(** C7: with a history capacity N > 0, after every publish of a run the
    buffer holds at most N records; once N or more records have been
    published it holds exactly N, and it always is the last (most recent)
    records published, in the order of publication, so that what was
    evicted is older than everything retained; their ids are consecutive
    and end at the id of the last publish. *)
Theorem history_bounded_fifo c tr w :
  reach c tr w ->
  0 < HistoryReplayBuffer c ->
  Z.of_nat (length (messageBuffer (hub w))) <= HistoryReplayBuffer c
  /\ (HistoryReplayBuffer c <= Z.of_nat (length tr) ->
      Z.of_nat (length (messageBuffer (hub w))) = HistoryReplayBuffer c)
  /\ messageBuffer (hub w)
     = drop (length tr - Z.to_nat (HistoryReplayBuffer c)) tr
  /\ (Z.of_nat (length tr) < 2 ^ 64 ->
      msg_id <$> messageBuffer (hub w)
      = Some <$> seqZ (Z.of_nat (length tr)
                         - Z.of_nat (length (messageBuffer (hub w))) + 1)
                   (Z.of_nat (length (messageBuffer (hub w))))
      /\ StronglySorted id_lt (messageBuffer (hub w))).
Proof.
  intros Hr HN.
  destruct (reach_buffer _ _ _ Hr) as (j & Hj & Hb & Hjdef).
  destruct (0 <? HistoryReplayBuffer c) eqn:E; [|apply Z.ltb_ge in E; lia].
  split; [|split; [|split]].
  - rewrite Hb, length_drop. lia.
  - intros Hfull. rewrite Hb, length_drop. lia.
  - rewrite Hb. f_equal. lia.
  - intros Hn. pose proof (reach_buffer_ids _ _ _ Hr Hn) as Hids.
    cbv zeta in Hids. split; [done|]. by eapply id_lt_seq.
Qed.

Lemma history_bounded_fifo_witness :
  0 < HistoryReplayBuffer Scenario.cfg
  /\ Z.of_nat (length (messageBuffer (hub (Scenario.published Scenario.cfg 5).2)))
     <= HistoryReplayBuffer Scenario.cfg
  /\ messageBuffer (hub (Scenario.published Scenario.cfg 5).2)
     = [Scenario.record 3; Scenario.record 4; Scenario.record 5].
Proof.
  assert (0 < HistoryReplayBuffer Scenario.cfg) as HN by reflexivity.
  split; [exact HN|].
  destruct (history_bounded_fifo Scenario.cfg
              (Scenario.published Scenario.cfg 5).1
              (Scenario.published Scenario.cfg 5).2
              (reach_published _ _) HN)
    as (Hle & _ & Hb & _).
  split; [exact Hle|]. rewrite Hb. vm_compute. reflexivity.
Defined.

(** C8: [unregister] is idempotent.  For an id that is not registered it
    changes nothing.  For a registered connection whose queue is open it
    removes the entry and closes the queue.  However a first [unregister]
    ends, a second one for the same connection returns at once and changes
    nothing: in particular it closes no channel again. *)
Theorem unregister_idempotent client w :
  (clients (hub w) !! connID client = None ->
   unregister client w = Returned tt w)
  /\ (forall c,
        is_Some (clients (hub w) !! connID client) ->
        chans w !! Send client = Some c -> chan_closed c = false ->
        unregister client w
        = Returned tt
            (mkWorld (set_clients (delete (connID client)) (hub w))
               (<[Send client := mkChan (chan_buf c) (chan_cap c) true]>
                  (chans w))))
  /\ unregister client (world_of (unregister client w))
     = Returned tt (world_of (unregister client w)).
Proof.
  split; [apply unregister_unknown|]. split.
  - intros c. apply unregister_registered.
  - apply unregister_unknown, unregister_removes.
Qed.

Lemma unregister_idempotent_witness :
  clients (hub (mkWorld (NewHub Scenario.cfg) (Scenario.queue 1)))
    !! connID Scenario.subscriber = None
  /\ unregister Scenario.subscriber
       (mkWorld (NewHub Scenario.cfg) (Scenario.queue 1))
     = Returned tt (mkWorld (NewHub Scenario.cfg) (Scenario.queue 1))
  /\ is_Some (clients (hub Scenario.registered) !! connID Scenario.subscriber)
  /\ unregister Scenario.subscriber Scenario.registered
     = Returned tt
         (mkWorld (NewHub Scenario.cfg) {[ 0%nat := mkChan [] 1 true ]}).
Proof.
  assert (clients (hub (mkWorld (NewHub Scenario.cfg) (Scenario.queue 1)))
            !! connID Scenario.subscriber = None) as Hnone by reflexivity.
  assert (is_Some (clients (hub Scenario.registered)
                     !! connID Scenario.subscriber)) as Hsome
    by (exists Scenario.subscriber; vm_compute; reflexivity).
  destruct (unregister_idempotent Scenario.subscriber
              (mkWorld (NewHub Scenario.cfg) (Scenario.queue 1)))
    as (Hunknown & _ & _).
  destruct (unregister_idempotent Scenario.subscriber Scenario.registered)
    as (_ & Hknown & _).
  split; [exact Hnone|]. split; [exact (Hunknown Hnone)|].
  split; [exact Hsome|].
  rewrite (Hknown (mkChan [] 1 false) Hsome
             ltac:(vm_compute; reflexivity) ltac:(reflexivity)).
  vm_compute. reflexivity.
Defined.




(** C10: for a watermark string that is not empty and is not the decimal
    notation of an unsigned 64-bit integer (a character that is not a
    digit, or a value of 2^64 or more), [GetMessagesSince] returns (it
    neither parks nor panics), its result is [nil], and the world is as it
    was. *)
Theorem GetMessagesSince_unparsable lastEventID w :
  lastEventID <> EmptyString ->
  (forall n, ~ decimal_uint64 lastEventID n) ->
  (exists e, ParseUint lastEventID 10 64 = Err e)
  /\ GetMessagesSince lastEventID w = Returned [] w.
Proof.
  intros Hne Hnot.
  destruct (ParseUint lastEventID 10 64) as [n|e] eqn:Hp.
  - apply ParseUint_decimal in Hp. by destruct (Hnot n).
  - split; [by exists e|].
    unfold GetMessagesSince, mbind, M_bind, getHub.
    rewrite decide_False by done. by rewrite Hp.
Qed.

Lemma GetMessagesSince_unparsable_witness :
  "18446744073709551616"%string <> EmptyString
  /\ (forall n, ~ decimal_uint64 "18446744073709551616" n)
  /\ GetMessagesSince "18446744073709551616"
       (Scenario.published Scenario.cfg 5).2
     = Returned [] (Scenario.published Scenario.cfg 5).2.
Proof.
  assert ("18446744073709551616"%string <> EmptyString) as Hne
    by discriminate.
  assert (forall n, ~ decimal_uint64 "18446744073709551616" n) as Hnot.
  { intros n (_ & Hv & Hn). vm_compute in Hv. injection Hv as <-.
    vm_compute in Hn. discriminate Hn. }
  split; [exact Hne|]. split; [exact Hnot|].
  exact (proj2 (GetMessagesSince_unparsable "18446744073709551616" _
                  Hne Hnot)).
Defined.

(** * Further properties of the code *)

(** ** The registry *)

Section registry_facts.

Lemma stamp_clients data broadcast handlerID h :
  clients (stamp data broadcast handlerID h).1 = clients h.
Proof.
  unfold stamp. cbv zeta. simpl.
  match goal with |- context [if ?b then _ else _] => destruct b end; done.
Qed.

Lemma delete_insert_fresh (m : gmap string clientConnection) k v :
  m !! k = None -> delete k (<[k := v]> m) = m.
Proof.
  intros Hk. apply map_eq. intros i.
  destruct (decide (i = k)) as [->|Hne].
  - by rewrite lookup_delete_eq.
  - by rewrite lookup_delete_ne, lookup_insert_ne.
Qed.

End registry_facts.

(** [register] followed by [unregister] of a connection whose id was free
    and whose queue is open: both calls return, the registry, the history
    and the counter are back to what they were, and the only change to
    the world is that the connection's queue is closed (its buffered
    records stay in it). *)
Theorem register_unregister_roundtrip client w c :
  clients (hub w) !! connID client = None ->
  chans w !! Send client = Some c ->
  chan_closed c = false ->
  register client w
  = Returned tt (mkWorld (set_clients (insert (connID client) client) (hub w))
                   (chans w))
  /\ unregister client (world_of (register client w))
  = Returned tt
      (mkWorld (hub w)
         (<[Send client := mkChan (chan_buf c) (chan_cap c) true]> (chans w))).
Proof.
  intros Hfree Hl Ho. split; [done|].
  rewrite (unregister_registered client _ c);
    [|simpl; rewrite lookup_insert_eq; by eexists|done|done].
  simpl. do 2 f_equal. destruct w as [[cl b cf n] σ]. simpl in *.
  unfold set_clients. simpl. by rewrite delete_insert_fresh.
Qed.

Lemma register_unregister_roundtrip_witness :
  clients (hub (mkWorld (NewHub Scenario.cfg) (Scenario.queue 1)))
    !! connID Scenario.subscriber = None
  /\ unregister Scenario.subscriber Scenario.registered
     = Returned tt
         (mkWorld (NewHub Scenario.cfg) {[ 0%nat := mkChan [] 1 true ]}).
Proof.
  assert (clients (hub (mkWorld (NewHub Scenario.cfg) (Scenario.queue 1)))
            !! connID Scenario.subscriber = None) as Hfree by reflexivity.
  split; [exact Hfree|].
  destruct (register_unregister_roundtrip Scenario.subscriber
              (mkWorld (NewHub Scenario.cfg) (Scenario.queue 1))
              (mkChan [] 1 false) Hfree
              ltac:(vm_compute; reflexivity) ltac:(reflexivity))
    as [_ Hgone].
  unfold Scenario.registered. rewrite Hgone. vm_compute. reflexivity.
Defined.

(** [unregister] goes by the id alone (hub.go 71): called with a stale
    connection object whose id is by now held by another connection, it
    removes that other connection from the registry and closes the stale
    object's queue; the queue of the connection that was registered is
    left as it was, still open. *)
Theorem unregister_stale_connection stale current w c :
  clients (hub w) !! connID stale = Some current ->
  Send stale <> Send current ->
  chans w !! Send stale = Some c ->
  chan_closed c = false ->
  exists w',
    unregister stale w = Returned tt w'
    /\ clients (hub w') !! connID stale = None
    /\ chans w' !! Send stale
       = Some (mkChan (chan_buf c) (chan_cap c) true)
    /\ chans w' !! Send current = chans w !! Send current.
Proof.
  intros Hreg Hne Hl Ho. eexists. split.
  - apply (unregister_registered stale w c); [by eexists|done|done].
  - simpl. split; [apply lookup_delete_eq|].
    split; [apply lookup_insert_eq|by apply lookup_insert_ne].
Qed.

Lemma unregister_stale_connection_witness :
  clients (hub Example.two_queues) !! connID Example.stale
  = Some Scenario.subscriber
  /\ Send Example.stale <> Send Scenario.subscriber
  /\ exists w',
       unregister Example.stale Example.two_queues = Returned tt w'
       /\ clients (hub w') !! "conn-1" = None
       /\ chans w' !! 1%nat = Some (mkChan [] 1 true)
       /\ chans w' !! 0%nat = Some (mkChan [] 1 false).
Proof.
  assert (clients (hub Example.two_queues) !! connID Example.stale
          = Some Scenario.subscriber) as Hreg by (vm_compute; reflexivity).
  assert (Send Example.stale <> Send Scenario.subscriber) as Hne
    by discriminate.
  split; [exact Hreg|]. split; [exact Hne|].
  destruct (unregister_stale_connection Example.stale Scenario.subscriber
              Example.two_queues (mkChan [] 1 false) Hreg Hne
              ltac:(vm_compute; reflexivity) ltac:(reflexivity))
    as (w' & Hret & Hgone & Hclosed & Hkept).
  exists w'. split; [exact Hret|]. split; [exact Hgone|].
  split; [exact Hclosed|].
  change (chans w' !! Send Scenario.subscriber
          = Some (mkChan [] 1 false)).
  rewrite Hkept. vm_compute. reflexivity.
Defined.

(** [unregister] of a registered connection whose queue is the nil
    channel or was already closed panics in [close] (hub.go 73), and the
    entry is gone from the registry all the same, the [delete] of hub.go
    72 having run first. *)
Theorem unregister_closed_panics client w :
  is_Some (clients (hub w) !! connID client) ->
  chans w !! Send client = None
  \/ (exists c, chans w !! Send client = Some c /\ chan_closed c = true) ->
  unregister client w
  = Panicked (mkWorld (set_clients (delete (connID client)) (hub w)) (chans w))
  /\ clients (hub (world_of (unregister client w))) !! connID client = None.
Proof.
  intros [cl Hcl] Hch. split; [|apply unregister_removes].
  unfold unregister, mbind, M_bind, getHub, modifyHub.
  rewrite Hcl. unfold chan_close. simpl.
  destruct Hch as [->|(c & -> & ->)]; done.
Qed.

Lemma unregister_closed_panics_witness :
  is_Some (clients (hub Example.closed_behind) !! connID Scenario.subscriber)
  /\ unregister Scenario.subscriber Example.closed_behind
     = Panicked (mkWorld (NewHub Scenario.cfg)
                   {[ 0%nat := mkChan [] 1 true ]}).
Proof.
  assert (is_Some (clients (hub Example.closed_behind)
                     !! connID Scenario.subscriber)) as Hsome
    by (exists Scenario.subscriber; vm_compute; reflexivity).
  split; [exact Hsome|].
  destruct (unregister_closed_panics Scenario.subscriber
              Example.closed_behind Hsome) as [Hpanic _].
  - right. exists (mkChan [] 1 true). split; [vm_compute|]; reflexivity.
  - rewrite Hpanic. vm_compute. reflexivity.
Defined.

(** Along every run the registry is keyed by the connections' own ids: an
    entry found under a key is a connection with that id. *)
Theorem registry_keyed_by_id c tr w k client :
  reach c tr w ->
  clients (hub w) !! k = Some client ->
  connID client = k.
Proof.
  intros Hr. revert k client.
  induction Hr as [σ|tr w data broadcast handlerID order _ IH
                  |tr w cl _ IH|tr w cl _ IH
                  |tr w lastEventID _ IH|tr w σ _ IH]; intros k client.
  - simpl. by rewrite lookup_empty.
  - rewrite Broadcast_hub, stamp_clients. apply IH.
  - rewrite register_hub. simpl. rewrite lookup_insert.
    case_decide; [by intros [= <-]|apply IH].
  - rewrite unregister_hub.
    destruct (clients (hub w) !! connID cl); [|apply IH].
    simpl. rewrite lookup_delete. case_decide; [done|apply IH].
  - rewrite hub_stable_GetMessagesSince. apply IH.
  - apply IH.
Qed.

Lemma registry_keyed_by_id_witness :
  reach Scenario.cfg [] Example.two_registered
  /\ clients (hub Example.two_registered) !! "conn-3" = Some Example.second
  /\ connID Example.second = "conn-3".
Proof.
  assert (reach Scenario.cfg [] Example.two_registered) as Hr
    by (do 2 apply reach_register; apply reach_NewHub).
  assert (clients (hub Example.two_registered) !! "conn-3"
          = Some Example.second) as Hl by (vm_compute; reflexivity).
  split; [exact Hr|]. split; [exact Hl|].
  exact (registry_keyed_by_id _ _ _ _ _ Hr Hl).
Defined.

(** The calls keep to their own part of the hub, however they end:
    [Broadcast] (returned, parked or panicked) never changes the registry
    or the configuration; [register] and [unregister] (returned or
    panicked) never change the history buffer, the counter or the
    configuration. *)
Theorem calls_keep_to_their_fields data broadcast handlerID order client w :
  (clients (hub (world_of (Broadcast data broadcast handlerID order w)))
   = clients (hub w)
   /\ config (hub (world_of (Broadcast data broadcast handlerID order w)))
      = config (hub w))
  /\ (messageBuffer (hub (world_of (register client w)))
      = messageBuffer (hub w)
      /\ lastID (hub (world_of (register client w))) = lastID (hub w)
      /\ config (hub (world_of (register client w))) = config (hub w))
  /\ (messageBuffer (hub (world_of (unregister client w)))
      = messageBuffer (hub w)
      /\ lastID (hub (world_of (unregister client w))) = lastID (hub w)
      /\ config (hub (world_of (unregister client w))) = config (hub w)).
Proof.
  split; [|split].
  - rewrite Broadcast_hub, stamp_clients, stamp_config. done.
  - done.
  - rewrite unregister_hub.
    destruct (clients (hub w) !! connID client); done.
Qed.

(** ** More on the fan-out *)

Section fanout_more.

Lemma chan_send_closed ch c m w :
  closed_queue ch c w -> chan_send ch m w = Panicked w.
Proof. intros [Hl Hc]. unfold chan_send. by rewrite Hl, Hc. Qed.

Lemma preserves_closed_queue ch c ch' m :
  preserves (closed_queue ch c) (chan_send ch' m).
Proof.
  intros w Hw. destruct (decide (ch' = ch)) as [->|Hne].
  - by rewrite (chan_send_closed ch c).
  - destruct Hw as [Hl Hc]. unfold chan_send.
    destruct (chans w !! ch') as [c'|]; [|done].
    destruct (chan_closed c'); [done|].
    destruct (length (chan_buf c') <? chan_cap c')%nat; [|done].
    split; [|done]. simpl. by rewrite lookup_insert_ne.
Qed.

Lemma range_Channels_closed target channels client msg c w a w' :
  target ∈ channels ->
  closed_queue (Send client) c w ->
  range_Channels target channels client msg w <> Returned a w'.
Proof.
  intros Hin Hw. rewrite range_Channels_elem by done.
  by rewrite (chan_send_closed _ c).
Qed.

Lemma fanout_closed_queue order broadcast msg client target c w :
  client ∈ order ->
  target ∈ broadcast -> target ∈ Channels client ->
  closed_queue (Send client) c w ->
  exists w',
    (fanout order broadcast msg w = Blocked w'
     \/ fanout order broadcast msg w = Panicked w')
    /\ closed_queue (Send client) c w'
    /\ hub w' = hub w.
Proof.
  intros Hc Ht Hch Hw.
  pose proof (preserves_fanout (closed_queue (Send client) c)
                order broadcast msg
                (fun ch => preserves_closed_queue _ _ ch msg) w Hw) as Hkept.
  pose proof (hub_stable_fanout order broadcast msg w) as Hhub.
  assert (forall a w', fanout order broadcast msg w <> Returned a w') as Hret.
  { intros a w'.
    apply (for_range_stuck (closed_queue (Send client) c) order _ client);
      [|done| |done].
    - intros cl. apply preserves_for_range. intros tg.
      apply preserves_range_Channels, preserves_closed_queue.
    - intros w1 a1 w1'.
      apply (for_range_stuck (closed_queue (Send client) c) broadcast _ target);
        [|done|].
      + intros tg. apply preserves_range_Channels, preserves_closed_queue.
      + intros w2 a2 w2' Hw2. by eapply range_Channels_closed. }
  destruct (fanout order broadcast msg w) as [a w'|w'|w'] eqn:E.
  - by destruct (Hret a w').
  - exists w'. eauto.
  - exists w'. eauto.
Qed.

Lemma range_targets_no_match client broadcast msg w :
  sends_to client broadcast = 0%nat ->
  for_range broadcast
    (fun target => range_Channels target (Channels client) client msg) w
  = Returned tt w.
Proof.
  unfold sends_to. intros Hnone. apply length_zero_iff_nil in Hnone.
  induction broadcast as [|target broadcast IH]; [done|].
  rewrite filter_cons in Hnone. case_decide as Hin; [done|].
  simpl. unfold mbind, M_bind.
  rewrite range_Channels_not_elem by done. by apply IH.
Qed.

Lemma fanout_no_match order broadcast msg w :
  (forall client, client ∈ order -> sends_to client broadcast = 0%nat) ->
  fanout order broadcast msg w = Returned tt w.
Proof.
  intros Hnone. unfold fanout.
  induction order as [|client order IH]; [done|].
  simpl. unfold mbind, M_bind.
  rewrite range_targets_no_match by (apply Hnone; left).
  apply IH. intros cl Hcl. apply Hnone. by right.
Qed.

(** The fan-out to clients with distinct open queues that have room:
    it returns, and each queue has got its client's sends at the back. *)
Lemma fanout_delivers order broadcast msg : forall w,
  NoDup (Send <$> order) ->
  queues_have_room order broadcast w ->
  exists w',
    fanout order broadcast msg w = Returned tt w'
    /\ hub w' = hub w
    /\ (forall client c, client ∈ order ->
          chans w !! Send client = Some c ->
          chans w' !! Send client
          = Some (mkChan
                    (chan_buf c ++ replicate (sends_to client broadcast) msg)
                    (chan_cap c) false))
    /\ (forall l, l ∉ Send <$> order -> chans w' !! l = chans w !! l).
Proof.
  induction order as [|client order IH]; intros w Hnd Hroom.
  - exists w. split; [done|]. split; [done|]. split; [|done].
    intros client c Hin. by apply elem_of_nil in Hin.
  - rewrite fmap_cons in Hnd. apply NoDup_cons in Hnd as [Hfresh Hnd].
    destruct (Hroom client ltac:(left)) as (c & Hl & Ho & Hr).
    pose proof (range_targets_sends client broadcast msg w c Hl Ho Hr) as E.
    set (w1 := mkWorld (hub w)
                 (<[Send client :=
                      mkChan (chan_buf c
                              ++ replicate (sends_to client broadcast) msg)
                        (chan_cap c) false]> (chans w))) in E.
    assert (forall cl, cl ∈ order -> Send cl <> Send client) as Hother.
    { intros cl Hcl Heq. apply Hfresh. rewrite <- Heq.
      apply list_elem_of_fmap. by exists cl. }
    destruct (IH w1 Hnd) as (w' & Hret & Hhub & Hin & Hout).
    { intros cl Hcl. destruct (Hroom cl ltac:(by right)) as (c' & ? & ? & ?).
      exists c'. split; [|done]. simpl.
      rewrite lookup_insert_ne; [done|]. intros ?. by eapply Hother. }
    exists w'. split; [|split; [done|split]].
    + unfold fanout in *. simpl. unfold mbind, M_bind. by rewrite E.
    + intros cl c' Hcl Hc'. apply elem_of_cons in Hcl as [->|Hcl].
      * rewrite Hout by done. simpl. rewrite lookup_insert_eq. congruence.
      * apply Hin; [done|]. simpl.
        rewrite lookup_insert_ne; [done|]. intros ?. by eapply Hother.
    + intros l Hl'. rewrite fmap_cons in Hl'.
      apply not_elem_of_cons in Hl' as [Hne Hl'].
      rewrite Hout by done. simpl. by rewrite lookup_insert_ne.
Qed.

Lemma queues_have_room_perm order1 order2 broadcast w :
  order1 ≡ₚ order2 ->
  queues_have_room order1 broadcast w ->
  queues_have_room order2 broadcast w.
Proof. intros Hp Hroom client Hin. apply Hroom. by rewrite Hp. Qed.

Lemma range_clients_no_clients h order :
  clients h = ∅ -> range_clients h order -> order = [].
Proof.
  intros He Hp. unfold range_clients in Hp.
  rewrite He, map_to_list_empty in Hp. by apply Permutation_nil_r in Hp.
Qed.

End fanout_more.

Section registry_orders.

Lemma range_clients_NoDup_Send h order :
  distinct_queues h -> range_clients h order -> NoDup (Send <$> order).
Proof.
  intros Hd Hp. unfold range_clients in Hp. rewrite Hp.
  rewrite <- list_fmap_compose.
  apply NoDup_fmap_2_strong; [|apply NoDup_map_to_list].
  intros [k1 c1] [k2 c2] H1 H2 Heq. simpl in Heq.
  apply elem_of_map_to_list in H1, H2.
  assert (k1 = k2) as -> by (by eapply Hd).
  congruence.
Qed.

Lemma range_clients_registered h order client :
  range_clients h order -> client ∈ order ->
  exists k, clients h !! k = Some client.
Proof.
  intros Hp Hin. unfold range_clients in Hp. rewrite Hp in Hin.
  apply list_elem_of_fmap in Hin as ([k cl] & -> & Hin).
  exists k. by apply elem_of_map_to_list.
Qed.

Lemma sends_to_disjoint client broadcast :
  (forall target, target ∈ broadcast -> target ∉ Channels client) ->
  sends_to client broadcast = 0%nat.
Proof.
  intros Hd. unfold sends_to.
  induction broadcast as [|target broadcast IH]; [done|].
  rewrite filter_cons. rewrite decide_False by (apply Hd; left).
  apply IH. intros t Ht. apply Hd. by right.
Qed.

End registry_orders.

(** A publish that matches nobody: when no client visited follows any of
    the targets (an empty target list, an empty registry, or disjoint
    channels), [Broadcast] returns, no channel of the world is touched,
    and the record has still been given an id and appended to the
    history. *)
Theorem Broadcast_no_match_returns data broadcast handlerID order w :
  (forall client target,
     client ∈ order -> target ∈ broadcast -> target ∉ Channels client) ->
  Broadcast data broadcast handlerID order w
  = Returned tt
      (mkWorld (stamp data broadcast handlerID (hub w)).1 (chans w)).
Proof.
  intros Hd. unfold Broadcast, mbind, M_bind, getHub, modifyHub.
  destruct (stamp data broadcast handlerID (hub w)) as [h' msg]. simpl.
  apply fanout_no_match. intros client Hin.
  apply sends_to_disjoint. intros target. by apply Hd.
Qed.

Lemma Broadcast_no_match_returns_witness :
  (forall client target,
     client ∈ [Scenario.subscriber] -> target ∈ ["y"] ->
     target ∉ Channels client)
  /\ Broadcast [] ["y"] 0 [Scenario.subscriber] Scenario.registered
     = Returned tt
         (mkWorld
            (mkSSEHub {[ "conn-1" := Scenario.subscriber ]}
               [mkSSEMessage "1" [] ["y"] 0] Scenario.cfg 1)
            (Scenario.queue 1)).
Proof.
  assert (forall client target,
            client ∈ [Scenario.subscriber] -> target ∈ ["y"] ->
            target ∉ Channels client) as Hd.
  { intros client target Hc Ht.
    apply list_elem_of_singleton in Hc, Ht. subst.
    intros Hin. apply list_elem_of_singleton in Hin. discriminate. }
  split; [exact Hd|].
  rewrite (Broadcast_no_match_returns [] ["y"] 0 [Scenario.subscriber]
             Scenario.registered Hd).
  vm_compute. reflexivity.
Defined.

(** A publish does not get past a closed queue: when a registered client
    follows one of the targets and its queue has been closed, [Broadcast]
    never returns; the send on the closed queue panics (unless an earlier
    send has already parked or panicked the call).  The record has been
    given its id and is in the history all the same. *)
Theorem Broadcast_closed_queue_never_returns
    data broadcast handlerID order w client target c :
  range_clients (hub w) order ->
  clients (hub w) !! connID client = Some client ->
  target ∈ broadcast -> target ∈ Channels client ->
  closed_queue (Send client) c w ->
  exists w',
    (Broadcast data broadcast handlerID order w = Panicked w'
     \/ Broadcast data broadcast handlerID order w = Blocked w')
    /\ chans w' !! Send client = Some c
    /\ hub w' = (stamp data broadcast handlerID (hub w)).1.
Proof.
  intros Horder Hreg Ht Hch Hclosed.
  pose proof (range_clients_elem_of _ _ _ Horder Hreg) as Hin.
  unfold Broadcast, mbind, M_bind, getHub, modifyHub.
  destruct (stamp data broadcast handlerID (hub w)) as [h' msg] eqn:E.
  simpl.
  destruct (fanout_closed_queue order broadcast msg client target c
              (mkWorld h' (chans w)) Hin Ht Hch Hclosed)
    as (w' & Hout & (Hl & _) & Hhub).
  exists w'. split; [tauto|done].
Qed.

Lemma Broadcast_closed_queue_never_returns_witness :
  closed_queue (Send Scenario.subscriber) (mkChan [] 1 true)
    Example.closed_behind
  /\ exists w',
       (Broadcast [] ["x"] 0 [Scenario.subscriber] Example.closed_behind
        = Panicked w'
        \/ Broadcast [] ["x"] 0 [Scenario.subscriber] Example.closed_behind
           = Blocked w')
       /\ chans w' !! 0%nat = Some (mkChan [] 1 true)
       /\ messageBuffer (hub w') = [Scenario.record 1].
Proof.
  assert (closed_queue (Send Scenario.subscriber) (mkChan [] 1 true)
            Example.closed_behind) as Hclosed
    by (split; [vm_compute|]; reflexivity).
  split; [exact Hclosed|].
  destruct (Broadcast_closed_queue_never_returns [] ["x"] 0
              [Scenario.subscriber] Example.closed_behind
              Scenario.subscriber "x" (mkChan [] 1 true))
    as (w' & Hout & Hqueue & Hhub).
  - unfold range_clients. vm_compute. reflexivity.
  - vm_compute. reflexivity.
  - constructor.
  - constructor.
  - exact Hclosed.
  - exists w'. split; [exact Hout|]. split; [exact Hqueue|].
    rewrite Hhub. vm_compute. reflexivity.
Defined.

(** What a publish delivers.  When no two registered connections share a
    channel and every registered connection has an open queue with room
    for what it is sent, [Broadcast] returns; the queue of each registered
    connection has the new record at its back once for every target found
    among the connection's channels (not at all if none is; duplicates
    among the connection's own channels do not count twice), behind what
    it held; every other channel is untouched. *)
Theorem Broadcast_delivers data broadcast handlerID order w :
  range_clients (hub w) order ->
  distinct_queues (hub w) ->
  queues_have_room order broadcast w ->
  exists w',
    Broadcast data broadcast handlerID order w = Returned tt w'
    /\ hub w' = (stamp data broadcast handlerID (hub w)).1
    /\ (forall client c,
          client ∈ order ->
          chans w !! Send client = Some c ->
          chans w' !! Send client
          = Some (mkChan
                    (chan_buf c
                     ++ replicate (sends_to client broadcast)
                          (stamp data broadcast handlerID (hub w)).2)
                    (chan_cap c) false))
    /\ (forall l, l ∉ Send <$> order -> chans w' !! l = chans w !! l).
Proof.
  intros Horder Hd Hroom.
  pose proof (range_clients_NoDup_Send _ _ Hd Horder) as Hnd.
  unfold Broadcast, mbind, M_bind, getHub, modifyHub.
  destruct (stamp data broadcast handlerID (hub w)) as [h' msg] eqn:E.
  simpl.
  destruct (fanout_delivers order broadcast msg (mkWorld h' (chans w))
              Hnd Hroom) as (w' & Hret & Hhub & Hin & Hout).
  exists w'. done.
Qed.

Lemma Broadcast_delivers_witness :
  range_clients (hub Example.two_registered)
    [Example.second; Scenario.subscriber]
  /\ exists w',
       Broadcast [] ["y"] 0 [Example.second; Scenario.subscriber]
         Example.two_registered
       = Returned tt w'
       /\ chans w' !! 1%nat
          = Some (mkChan [mkSSEMessage "1" [] ["y"] 0] 1 false)
       /\ chans w' !! 0%nat = Some (mkChan [] 1 false).
Proof.
  assert (clients (hub Example.two_registered)
          = <["conn-3" := Example.second]>
              (<["conn-1" := Scenario.subscriber]> ∅)) as Hcl
    by reflexivity.
  assert (range_clients (hub Example.two_registered)
            [Example.second; Scenario.subscriber]) as Horder.
  { unfold range_clients. rewrite Hcl.
    rewrite map_to_list_insert by reflexivity.
    rewrite map_to_list_insert by reflexivity.
    rewrite map_to_list_empty. reflexivity. }
  split; [exact Horder|].
  destruct (Broadcast_delivers [] ["y"] 0
              [Example.second; Scenario.subscriber]
              Example.two_registered Horder)
    as (w' & Hret & _ & Hin & _).
  - intros k1 k2 c1 c2. rewrite Hcl.
    rewrite !lookup_insert. repeat case_decide; subst;
      rewrite ?lookup_empty; intros; simplify_eq; done.
  - intros client Hc.
    apply elem_of_cons in Hc as [->|Hc];
      [|apply list_elem_of_singleton in Hc as ->].
    + exists (mkChan [] 1 false).
      split; [vm_compute; reflexivity|]. split; [reflexivity|].
      vm_compute. lia.
    + exists (mkChan [] 1 false).
      split; [vm_compute; reflexivity|]. split; [reflexivity|].
      vm_compute. lia.
  - exists w'. split; [exact Hret|]. split.
    + exact (Hin Example.second (mkChan [] 1 false)
               ltac:(left) ltac:(vm_compute; reflexivity)).
    + exact (Hin Scenario.subscriber (mkChan [] 1 false)
               ltac:(right; left) ltac:(vm_compute; reflexivity)).
Defined.

(** The order in which Go ranges over the registry does not show: under
    the conditions of [Broadcast_delivers], two calls that visit the
    registered connections in different orders end in the same world. *)
Theorem Broadcast_order_irrelevant data broadcast handlerID order1 order2 w :
  range_clients (hub w) order1 ->
  range_clients (hub w) order2 ->
  distinct_queues (hub w) ->
  queues_have_room order1 broadcast w ->
  Broadcast data broadcast handlerID order1 w
  = Broadcast data broadcast handlerID order2 w.
Proof.
  intros H1 H2 Hd Hroom.
  assert (order1 ≡ₚ order2) as Hp
    by (unfold range_clients in *; by rewrite H1, H2).
  pose proof (range_clients_NoDup_Send _ _ Hd H1) as Hnd1.
  pose proof (range_clients_NoDup_Send _ _ Hd H2) as Hnd2.
  pose proof (queues_have_room_perm _ _ _ _ Hp Hroom) as Hroom2.
  unfold Broadcast, mbind, M_bind, getHub, modifyHub.
  destruct (stamp data broadcast handlerID (hub w)) as [h' msg]. simpl.
  destruct (fanout_delivers order1 broadcast msg (mkWorld h' (chans w))
              Hnd1 Hroom) as (w1 & -> & Hhub1 & Hin1 & Hout1).
  destruct (fanout_delivers order2 broadcast msg (mkWorld h' (chans w))
              Hnd2 Hroom2) as (w2 & -> & Hhub2 & Hin2 & Hout2).
  f_equal. destruct w1 as [h1 σ1], w2 as [h2 σ2]. simpl in *.
  f_equal; [congruence|].
  apply map_eq. intros l.
  destruct (decide (l ∈ Send <$> order1)) as [Hl|Hl].
  - apply list_elem_of_fmap in Hl as (client & -> & Hc).
    destruct (Hroom client Hc) as (c & Hlc & _).
    rewrite (Hin1 client c Hc Hlc).
    rewrite (Hin2 client c) by (by rewrite <- Hp || done). done.
  - rewrite Hout1 by done. rewrite Hout2; [done|]. by rewrite <- Hp.
Qed.

Lemma Broadcast_order_irrelevant_witness :
  range_clients (hub Example.two_registered)
    [Example.second; Scenario.subscriber]
  /\ range_clients (hub Example.two_registered)
       [Scenario.subscriber; Example.second]
  /\ Broadcast [] ["x"] 0 [Example.second; Scenario.subscriber]
       Example.two_registered
     = Broadcast [] ["x"] 0 [Scenario.subscriber; Example.second]
         Example.two_registered.
Proof.
  assert (clients (hub Example.two_registered)
          = <["conn-3" := Example.second]>
              (<["conn-1" := Scenario.subscriber]> ∅)) as Hcl
    by reflexivity.
  assert (range_clients (hub Example.two_registered)
            [Example.second; Scenario.subscriber]) as H1.
  { unfold range_clients. rewrite Hcl.
    rewrite map_to_list_insert by reflexivity.
    rewrite map_to_list_insert by reflexivity.
    rewrite map_to_list_empty. reflexivity. }
  assert (range_clients (hub Example.two_registered)
            [Scenario.subscriber; Example.second]) as H2.
  { unfold range_clients in *. rewrite <- H1. apply Permutation_swap. }
  split; [exact H1|]. split; [exact H2|].
  apply (Broadcast_order_irrelevant [] ["x"] 0 _ _ _ H1 H2).
  - intros k1 k2 c1 c2. rewrite Hcl.
    rewrite !lookup_insert. repeat case_decide; subst;
      rewrite ?lookup_empty; intros; simplify_eq; done.
  - intros client Hc.
    apply elem_of_cons in Hc as [->|Hc];
      [|apply list_elem_of_singleton in Hc as ->].
    + exists (mkChan [] 1 false).
      split; [vm_compute; reflexivity|]. split; [reflexivity|].
      vm_compute. lia.
    + exists (mkChan [] 1 false).
      split; [vm_compute; reflexivity|]. split; [reflexivity|].
      vm_compute. lia.
Defined.

(** An unregistered connection is no longer visited.  In a hub where no
    two registered connections share a channel, take a registered
    connection with an open queue, and let every other registered
    connection have an open queue with room.  After [unregister] of that
    connection, a [Broadcast], in whatever order it ranges over the
    registry and even if it targets the channels the connection follows,
    does not visit the connection: it makes no send on the queue that
    [unregister] has closed (which would panic), it returns having
    delivered to the others, and the closed queue holds what it held. *)
Theorem no_delivery_after_unregister
    client c w data broadcast handlerID order :
  distinct_queues (hub w) ->
  clients (hub w) !! connID client = Some client ->
  chans w !! Send client = Some c ->
  chan_closed c = false ->
  (forall k cl,
     clients (hub w) !! k = Some cl -> k <> connID client ->
     exists c', chans w !! Send cl = Some c'
       /\ chan_closed c' = false
       /\ (length (chan_buf c') + sends_to cl broadcast <= chan_cap c')%nat) ->
  range_clients (hub (world_of (unregister client w))) order ->
  (client ∉ order)
  /\ exists w',
       Broadcast data broadcast handlerID order
         (world_of (unregister client w))
       = Returned tt w'
       /\ chans w' !! Send client
          = Some (mkChan (chan_buf c) (chan_cap c) true)
       /\ (forall cl c',
             cl ∈ order -> chans w !! Send cl = Some c' ->
             chans w' !! Send cl
             = Some (mkChan
                       (chan_buf c'
                        ++ replicate (sends_to cl broadcast)
                             (stamp data broadcast handlerID (hub w)).2)
                       (chan_cap c') false)).
Proof.
  intros Hd Hreg Hl Ho Hroom Horder.
  rewrite (unregister_registered client w c) in * by (done || by eexists).
  simpl world_of in *.
  set (w1 := mkWorld (set_clients (delete (connID client)) (hub w))
               (<[Send client := mkChan (chan_buf c) (chan_cap c) true]>
                  (chans w))) in *.
  assert (forall cl, cl ∈ order ->
            exists k, clients (hub w) !! k = Some cl /\ k <> connID client)
    as Hstill.
  { intros cl Hcl.
    destruct (range_clients_registered _ _ _ Horder Hcl) as [k Hk].
    simpl in Hk. rewrite lookup_delete in Hk.
    case_decide; [done|]. exists k. split; [done|congruence]. }
  assert (forall cl, cl ∈ order -> Send cl <> Send client) as Hother.
  { intros cl Hcl Heq. destruct (Hstill cl Hcl) as (k & Hk & Hne).
    apply Hne. by eapply Hd. }
  assert (client ∉ order) as Hout by (intros Hin; by apply (Hother client)).
  split; [done|].
  assert (distinct_queues (hub w1)) as Hd1.
  { intros k1 k2 c1 c2. simpl. rewrite !lookup_delete.
    repeat case_decide; try done. apply Hd. }
  pose proof (range_clients_NoDup_Send _ _ Hd1 Horder) as Hnd.
  unfold Broadcast, mbind, M_bind, getHub, modifyHub.
  assert (stamp data broadcast handlerID (hub w1)
          = (set_clients (delete (connID client))
               (stamp data broadcast handlerID (hub w)).1,
             (stamp data broadcast handlerID (hub w)).2)) as Hstamp.
  { unfold stamp. cbv zeta. simpl.
    match goal with |- context [if ?b then _ else _] => destruct b end;
      done. }
  rewrite Hstamp. simpl.
  set (h' := set_clients (delete (connID client))
               (stamp data broadcast handlerID (hub w)).1).
  set (msg := (stamp data broadcast handlerID (hub w)).2).
  destruct (fanout_delivers order broadcast msg (mkWorld h' (chans w1)) Hnd)
    as (w' & Hret & _ & Hin & Hrest).
  { intros cl Hcl. destruct (Hstill cl Hcl) as (k & Hk & Hne).
    destruct (Hroom k cl Hk Hne) as (c' & Hc' & Hopen & Hfit).
    exists c'. split; [|done]. simpl.
    rewrite lookup_insert_ne; [done|]. intros Heq. by apply (Hother cl). }
  exists w'. split; [done|]. split.
  - rewrite Hrest.
    + simpl. apply lookup_insert_eq.
    + intros Hin'. apply list_elem_of_fmap in Hin' as (cl & Heq & Hcl).
      by apply (Hother cl).
  - intros cl c' Hcl Hc'. apply Hin; [done|]. simpl.
    rewrite lookup_insert_ne; [done|]. intros Heq. by apply (Hother cl).
Qed.

Lemma no_delivery_after_unregister_witness :
  clients (hub Example.two_registered) !! connID Scenario.subscriber
  = Some Scenario.subscriber
  /\ range_clients
       (hub (world_of (unregister Scenario.subscriber
                         Example.two_registered)))
       [Example.second]
  /\ (Scenario.subscriber ∉ [Example.second])
  /\ exists w',
       Broadcast [] ["x"] 0 [Example.second]
         (world_of (unregister Scenario.subscriber Example.two_registered))
       = Returned tt w'
       /\ chans w' !! 0%nat = Some (mkChan [] 1 true)
       /\ chans w' !! 1%nat = Some (mkChan [Scenario.record 1] 1 false).
Proof.
  assert (clients (hub Example.two_registered)
          = <["conn-3" := Example.second]>
              (<["conn-1" := Scenario.subscriber]> ∅)) as Hcl
    by reflexivity.
  assert (clients (hub Example.two_registered) !! connID Scenario.subscriber
          = Some Scenario.subscriber) as Hreg by (vm_compute; reflexivity).
  assert (range_clients
            (hub (world_of (unregister Scenario.subscriber
                              Example.two_registered)))
            [Example.second]) as Horder
    by (unfold range_clients; vm_compute; reflexivity).
  split; [exact Hreg|]. split; [exact Horder|].
  assert (distinct_queues (hub Example.two_registered)) as Hd.
  { intros k1 k2 c1 c2. rewrite Hcl.
    rewrite !lookup_insert. repeat case_decide; subst;
      rewrite ?lookup_empty; intros; simplify_eq; done. }
  assert (forall k cl,
            clients (hub Example.two_registered) !! k = Some cl ->
            k <> connID Scenario.subscriber ->
            exists c', chans Example.two_registered !! Send cl = Some c'
              /\ chan_closed c' = false
              /\ (length (chan_buf c') + sends_to cl ["x"]
                  <= chan_cap c')%nat) as Hroom.
  { intros k cl. rewrite Hcl. rewrite !lookup_insert.
    repeat case_decide; subst; rewrite ?lookup_empty; intros Hk Hne;
      simplify_eq.
    exists (mkChan [] 1 false).
    split; [vm_compute; reflexivity|]. split; [reflexivity|].
    vm_compute. lia. }
  destruct (no_delivery_after_unregister Scenario.subscriber
              (mkChan [] 1 false) Example.two_registered [] ["x"] 0
              [Example.second] Hd Hreg ltac:(vm_compute; reflexivity)
              ltac:(reflexivity) Hroom Horder)
    as (Hout & w' & Hret & Hclosed & Hin).
  split; [exact Hout|]. exists w'. split; [exact Hret|].
  split; [exact Hclosed|].
  exact (Hin Example.second (mkChan [] 1 false)
           ltac:(left) ltac:(vm_compute; reflexivity)).
Defined.

Lemma stamp_NewHub c data broadcast handlerID :
  stamp data broadcast handlerID (NewHub c)
  = (mkSSEHub ∅ [mkSSEMessage "1" data broadcast handlerID] c 1,
     mkSSEMessage "1" data broadcast handlerID).
Proof.
  unfold stamp, NewHub, set_messageBuffer, set_lastID. cbv zeta. simpl.
  change (FormatUint ((0 + 1) mod 2 ^ 64) 10) with "1"%string.
  change ((0 + 1) mod 2 ^ 64) with 1.
  destruct (0 <? HistoryReplayBuffer c) eqn:E; simpl; [|reflexivity].
  apply Z.ltb_lt in E.
  change (Z.of_nat 1) with 1.
  destruct (HistoryReplayBuffer c <? 1) eqn:E1; [|reflexivity].
  apply Z.ltb_lt in E1. lia.
Qed.

(** A server fresh from [New] keeps the configuration it was given and
    has no subscriber: its first [Broadcast] returns whatever the targets
    and whatever channels exist, touches none of them, assigns the id
    ["1"], and the record is in the history whatever the configured
    capacity. *)
Theorem New_first_Broadcast c data broadcast handlerID order σ :
  range_clients (Server.hub (Server.New c)) order ->
  Server.config (Server.New c) = c
  /\ config (Server.hub (Server.New c)) = c
  /\ Server.Broadcast (Server.New c) data broadcast handlerID order σ
     = Returned tt
         (mkWorld
            (mkSSEHub ∅ [mkSSEMessage "1" data broadcast handlerID] c 1)
            σ).
Proof.
  intros Horder. split; [done|]. split; [done|].
  apply range_clients_no_clients in Horder as ->; [|done].
  unfold Server.Broadcast, Server.New, Server.hub.
  unfold Broadcast, mbind, M_bind, getHub, modifyHub.
  change (hub (mkWorld (NewHub c) σ)) with (NewHub c).
  by rewrite stamp_NewHub.
Qed.

Lemma New_first_Broadcast_witness :
  range_clients (Server.hub (Server.New Scenario.cfg_unset)) []
  /\ Server.Broadcast (Server.New Scenario.cfg_unset) [] ["x"] 0 []
       (Scenario.queue 1)
     = Returned tt
         (mkWorld
            (mkSSEHub ∅ [Scenario.record 1] Scenario.cfg_unset 1)
            (Scenario.queue 1)).
Proof.
  assert (range_clients (Server.hub (Server.New Scenario.cfg_unset)) [])
    as Horder.
  { unfold range_clients. simpl. rewrite map_to_list_empty. reflexivity. }
  split; [exact Horder|].
  exact (proj2 (proj2 (New_first_Broadcast Scenario.cfg_unset [] ["x"] 0 []
                         (Scenario.queue 1) Horder))).
Defined.

(** ** More on the history *)

(** The counter and the ids without a bound on the number of publishes:
    along every run the counter is the number of publishes modulo 2^64,
    the k-th published record carries the decimal form of k modulo 2^64,
    and the id of every buffered record reads back as a number, so that
    the [continue] of hub.go 92 never skips a record that [Broadcast] has
    stamped. *)
Theorem stamped_ids_modulo c tr w :
  reach c tr w ->
  lastID (hub w) = Z.of_nat (length tr) mod 2 ^ 64
  /\ (forall k m, tr !! k = Some m ->
        ID m = FormatUint ((Z.of_nat k + 1) mod 2 ^ 64) 10
        /\ msg_id m = Some ((Z.of_nat k + 1) mod 2 ^ 64))
  /\ Forall (fun m => is_Some (msg_id m)) (messageBuffer (hub w)).
Proof.
  intros Hr. destruct (reach_hub_inv _ _ _ Hr) as (_ & Hl & Hids & _).
  assert (forall k m, tr !! k = Some m ->
            ID m = FormatUint ((Z.of_nat k + 1) mod 2 ^ 64) 10
            /\ msg_id m = Some ((Z.of_nat k + 1) mod 2 ^ 64)) as Hk.
  { intros k m Hk.
    assert ((ID <$> tr) !! k = Some (ID m)) as H1
      by (by rewrite list_lookup_fmap, Hk).
    apply lookup_lt_Some in Hk.
    rewrite Hids, list_lookup_fmap, lookup_seqZ_lt in H1 by lia.
    simpl in H1. injection H1 as H1.
    replace (1 + Z.of_nat k) with (Z.of_nat k + 1) in H1 by lia.
    split; [done|]. unfold msg_id. rewrite <- H1.
    rewrite ParseUint_FormatUint; [done|].
    apply Z.mod_pos_bound. reflexivity. }
  split; [done|]. split; [done|].
  destruct (reach_buffer _ _ _ Hr) as (j & _ & Hb & _).
  rewrite Hb. apply Forall_forall. intros m Hm.
  apply list_elem_of_lookup in Hm as [i Hi].
  rewrite lookup_drop in Hi. destruct (Hk _ _ Hi) as [_ Hid].
  by eexists.
Qed.

Lemma stamped_ids_modulo_witness :
  reach Scenario.cfg (Scenario.published Scenario.cfg 5).1
    (Scenario.published Scenario.cfg 5).2
  /\ lastID (hub (Scenario.published Scenario.cfg 5).2) = 5
  /\ Forall (fun m => is_Some (msg_id m))
       (messageBuffer (hub (Scenario.published Scenario.cfg 5).2)).
Proof.
  pose proof (reach_published Scenario.cfg 5) as Hr.
  split; [exact Hr|].
  destruct (stamped_ids_modulo _ _ _ Hr) as (Hl & _ & Hparse).
  split; [rewrite Hl; vm_compute; reflexivity|exact Hparse].
Defined.

(** The latest record is always replayable: along every run, whatever the
    configured capacity, the newest record of the history buffer is the
    record of the latest publish (and the buffer is empty only while
    nothing has been published). *)
Theorem latest_record_retained c tr w :
  reach c tr w ->
  last (messageBuffer (hub w)) = last tr
  /\ (messageBuffer (hub w) = [] <-> tr = []).
Proof.
  intros Hr. destruct (reach_buffer _ _ _ Hr) as (j & Hj & Hb & Hjdef).
  assert (tr = [] \/ (j < length tr)%nat) as [->|Hlt].
  { destruct tr as [|m tr']; [by left|right].
    destruct (0 <? HistoryReplayBuffer c) eqn:E; [|subst j; simpl; lia].
    apply Z.ltb_lt in E. subst j. simpl length. lia. }
  - rewrite Hb, drop_nil. done.
  - rewrite Hb. split.
    + rewrite !last_lookup, lookup_drop, length_drop. f_equal. lia.
    + split; intros He.
      * apply (f_equal length) in He. rewrite length_drop in He.
        simpl in He. lia.
      * subst tr. simpl in Hlt. lia.
Qed.

Lemma latest_record_retained_witness :
  reach Scenario.cfg (Scenario.published Scenario.cfg 5).1
    (Scenario.published Scenario.cfg 5).2
  /\ last (messageBuffer (hub (Scenario.published Scenario.cfg 5).2))
     = Some (Scenario.record 5).
Proof.
  pose proof (reach_published Scenario.cfg 5) as Hr.
  split; [exact Hr|].
  destruct (latest_record_retained _ _ _ Hr) as [Hlast _].
  rewrite Hlast. vm_compute. reflexivity.
Defined.

(** A replay inside the window loses nothing.  With fewer than 2^64
    publishes, when the watermark [wm] is not older than the id just
    before the oldest buffered one, [GetMessagesSince] returns precisely
    the records published after the [wm]-th, in order; in particular it
    returns nothing to a client whose watermark is the latest id (or
    beyond). *)
Theorem replay_inside_window c tr w lastEventID wm :
  reach c tr w ->
  Z.of_nat (length tr) < 2 ^ 64 ->
  ParseUint lastEventID 10 64 = Ok wm ->
  Z.of_nat (length tr) - Z.of_nat (length (messageBuffer (hub w))) <= wm ->
  GetMessagesSince lastEventID w = Returned (drop (Z.to_nat wm) tr) w
  /\ (Z.of_nat (length tr) <= wm ->
      GetMessagesSince lastEventID w = Returned [] w).
Proof.
  intros Hr Hn Hp Hwin.
  pose proof (reach_buffer_ids _ _ _ Hr Hn) as Hids. cbv zeta in Hids.
  destruct (reach_buffer _ _ _ Hr) as (j & Hj & Hb & _).
  assert (GetMessagesSince lastEventID w
          = Returned (drop (Z.to_nat wm) tr) w) as Hg.
  { rewrite (GetMessagesSince_Ok _ wm) by done.
    rewrite (filter_newer_seq wm _ _ Hids).
    rewrite Hb in Hwin |- *. rewrite length_drop in Hwin |- *.
    rewrite drop_drop. do 2 f_equal. lia. }
  split; [done|]. intros Hup. rewrite Hg, drop_ge by lia. done.
Qed.

Lemma replay_inside_window_witness :
  ParseUint "4" 10 64 = Ok 4
  /\ GetMessagesSince "4" (Scenario.published Scenario.cfg 5).2
     = Returned [Scenario.record 5] (Scenario.published Scenario.cfg 5).2.
Proof.
  assert (ParseUint "4" 10 64 = Ok 4) as Hp by reflexivity.
  split; [exact Hp|].
  destruct (replay_inside_window Scenario.cfg
              (Scenario.published Scenario.cfg 5).1
              (Scenario.published Scenario.cfg 5).2 "4" 4
              (reach_published _ _) ltac:(vm_compute; reflexivity) Hp
              ltac:(vm_compute; discriminate))
    as [Hg _].
  rewrite Hg. vm_compute. reflexivity.
Defined.
